(** * The watch command of snaps-cli: a shallow embedding

    Source: packages/snaps-cli/src/cmds/watch/watchHandler.ts

    [watch] validates its arguments, derives the directory to observe and the
    bundle location, subscribes to a file watcher and rebuilds the snap on
    every relevant notification.  The embedding keeps the shape of the
    TypeScript:

    - JavaScript strings are [string]; the three string methods the handler
      uses ([includes], [lastIndexOf], [substring]) are written out, indices
      being [Z] as [lastIndexOf] answers [-1];
    - the collaborators (validators, bundler, manifest and eval handlers, dev
      server, loggers, watcher) are effects: a run is a function from the
      history of effects so far to the effects it adds and its completion
      (normal, or a thrown error / rejected promise);
    - whether a collaborator fails is decided by a [World], an arbitrary
      function of the history and of the call; every theorem quantifies over
      all worlds;
    - the watcher library is modelled by the part of its contract the handler
      relies on: the [ignored] matchers veto a path (a glob being matched
      in the normal form the watcher gives it), [ignoreInitial] hides the
      additions found by the first scan, and [ready] is emitted once;
    - the asynchronous run of a handler is taken as a whole.  The properties
      proved concern single runs and the order of the calls inside them; they
      do not depend on how overlapping runs would interleave. *)

From Stdlib Require Import String Ascii List ZArith Bool Lia.
Import ListNotations.

Local Open Scope list_scope.

(** ** JavaScript string methods *)

Module JsString.

Definition len (s : string) : Z := Z.of_nat (String.length s).

(** [s.includes(sub)] *)
Fixpoint includes (s sub : string) : bool :=
  String.prefix sub s
  || match s with
     | EmptyString => false
     | String _ s' => includes s' sub
     end.

(** [s.lastIndexOf(sub)]: the greatest index at which [sub] occurs, [-1]
    when there is none. *)
Fixpoint lastIndexOf (s sub : string) : Z :=
  match s with
  | EmptyString => if String.prefix sub EmptyString then 0%Z else (-1)%Z
  | String _ s' =>
      let r := lastIndexOf s' sub in
      if (0 <=? r)%Z then (r + 1)%Z
      else if String.prefix sub s then 0%Z else (-1)%Z
  end.

Definition clamp (i : Z) (s : string) : Z := Z.min (Z.max i 0) (len s).

(** [s.substring(start, end)]: both indices are clamped to [0, length] and
    swapped when out of order. *)
Definition substring (s : string) (start end_ : Z) : string :=
  let a := clamp start s in
  let b := clamp end_ s in
  let lo := Z.min a b in
  let hi := Z.max a b in
  String.substring (Z.to_nat lo) (Z.to_nat (hi - lo)) s.

(** [s.startsWith(p)] *)
Definition startsWith (s p : string) : bool := String.prefix p s.

End JsString.

(** ** Glob patterns of the watcher's [ignored] option

    The watcher hands string matchers to its glob library with the [dot]
    option set.  The patterns of this file only use literal text, [*] inside
    a path segment and [**] as a whole segment, and that is the fragment
    modelled: a pattern and a path are cut at [/]; [**] stands for any number
    of segments (none included), [*] for any run of characters of one
    segment. *)

Module Glob.

Definition slash : ascii := "/"%char.
Definition star : ascii := "*"%char.
Definition globstar : string := "**"%string.

Fixpoint split (s : string) : list string :=
  match s with
  | EmptyString => [EmptyString]
  | String c s' =>
      if Ascii.eqb c slash then EmptyString :: split s'
      else match split s' with
           | seg :: segs => String c seg :: segs
           | [] => [String c EmptyString]
           end
  end.

(** One pattern segment against one path segment. *)
Fixpoint wild_match (p s : string) : bool :=
  match p with
  | EmptyString =>
      match s with EmptyString => true | String _ _ => false end
  | String c p' =>
      if Ascii.eqb c star then
        (fix skip (s : string) : bool :=
           wild_match p' s
           || match s with
              | EmptyString => false
              | String _ s' => skip s'
              end) s
      else
        match s with
        | EmptyString => false
        | String d s' => Ascii.eqb c d && wild_match p' s'
        end
  end.

(** Pattern segments against path segments. *)
Fixpoint glob_match (pat path : list string) : bool :=
  match pat with
  | [] => match path with [] => true | _ :: _ => false end
  | p :: pat' =>
      if String.eqb p globstar then
        (fix skip (path : list string) : bool :=
           glob_match pat' path
           || match path with
              | [] => false
              | _ :: path' => skip path'
              end) path
      else
        match path with
        | [] => false
        | seg :: path' => wild_match p seg && glob_match pat' path'
        end
  end.

(** Characters with a meaning of their own in the glob library. *)
Definition special (c : ascii) : bool :=
  existsb (Ascii.eqb c)
    (list_ascii_of_string "*?[]{}()!+@|^$\"%string).

Fixpoint literal_text (s : string) : bool :=
  match s with
  | EmptyString => true
  | String c s' => negb (special c) && literal_text s'
  end.

(** A segment that names exactly one directory entry: not empty, not [.]
    or [..], no glob character. *)
Definition literal_segment (seg : string) : bool :=
  negb (String.eqb seg EmptyString)
  && negb (String.eqb seg "."%string)
  && negb (String.eqb seg ".."%string)
  && literal_text seg.

End Glob.

(** ** Path normalisation

    Node's [path.normalize] and [path.resolve], on the segments of a path:
    empty segments and [.] are dropped, [..] takes back the segment before
    it.  Above the start of a relative path [..] is kept; above the root of
    an absolute path it is dropped. *)

Module NodePath.

Definition skipped (seg : string) : bool :=
  String.eqb seg EmptyString || String.eqb seg "."%string.

(** [stack] holds the segments kept so far, the last one first. *)
Fixpoint normalize_onto (above : bool) (stack segs : list string)
  : list string :=
  match segs with
  | [] => rev stack
  | seg :: segs' =>
      if skipped seg then normalize_onto above stack segs'
      else if String.eqb seg ".."%string then
        match stack with
        | top :: stack' =>
            if String.eqb top ".."%string
            then normalize_onto above (seg :: stack) segs'
            else normalize_onto above stack' segs'
        | [] =>
            if above then normalize_onto above [seg] segs'
            else normalize_onto above [] segs'
        end
      else normalize_onto above (seg :: stack) segs'
  end.

(** The segments of [path.normalize(p)] for a relative [p]; the normal form
    of a path that comes to nothing is [.]. *)
Definition normalize_relative (p : string) : list string :=
  match normalize_onto true [] (Glob.split p) with
  | [] => ["."%string]
  | segs => segs
  end.


(** The segments of a directory path that survive normalisation when it has
    no [..]. *)
Definition dir_segments (dir : string) : list string :=
  filter (fun seg => negb (skipped seg)) (Glob.split dir).

(** A directory path without [..] and without glob characters: each segment
    is empty, [.] or literal.  [dist], [./dist], [dist/] and [build/out] are
    such paths. *)
Definition plain_dir (dir : string) : bool :=
  forallb (fun seg => skipped seg || Glob.literal_segment seg)
    (Glob.split dir).



End NodePath.

(** ** Effects, worlds and runs *)

Module Effects.

(** A JavaScript [Error]; the handler only reads its [message]. *)
Record error : Type := mkError { message : string }.

(** Calls to the collaborators, in the order they are made. *)
Inductive effect : Type :=
| LogInfo (msg : string)
| LogError (msg : string) (err : error)
| ValidateOutfileName (name : string)
| ValidateFilePath (path : string)
| ValidateDirPath (path : string) (createDir : bool)
| LoadConfig
| Bundle (src outfilePath : string)
| ManifestHandler
| EvalHandler (bundle : string)
| Serve
| ChokidarWatch (root : string)
| WatcherAdd (root : string).

Definition trace : Type := list effect.

(** The environment: after history [h], the call [e] succeeds ([None]) or
    fails with an error. *)
Definition World : Type := trace -> effect -> option error.

Inductive completion (A : Type) : Type :=
| Returned (a : A)
| Thrown (e : error).
Arguments Returned {A} a.
Arguments Thrown {A} e.

(** A run reads the history and answers the effects it adds and how it
    completes.  For an [async] function [Returned] is a resolved promise and
    [Thrown] a rejected one. *)
Definition M (A : Type) : Type := trace -> trace * completion A.

Definition ret {A : Type} (a : A) : M A := fun _ => ([], Returned a).

Definition bind {A B : Type} (m : M A) (k : A -> M B) : M B :=
  fun h =>
    let (d1, r) := m h in
    match r with
    | Returned a => let (d2, r2) := k a (h ++ d1) in (d1 ++ d2, r2)
    | Thrown e => (d1, Thrown e)
    end.

(** [try { m } catch (error) { handler error }], and [m.catch(handler)] on
    promises. *)
Definition try_catch {A : Type} (m : M A) (handler : error -> M A) : M A :=
  fun h =>
    let (d1, r) := m h in
    match r with
    | Returned a => (d1, Returned a)
    | Thrown e => let (d2, r2) := handler e (h ++ d1) in (d1 ++ d2, r2)
    end.

(** A collaborator that may fail. *)
Definition call (w : World) (e : effect) : M unit :=
  fun h =>
    ([e], match w h e with
          | None => Returned tt
          | Some err => Thrown err
          end).

(** A collaborator that does not fail (the loggers, the watcher
    registration). *)
Definition emit (e : effect) : M unit := fun _ => ([e], Returned tt).

Definition effects {A : Type} (m : M A) (h : trace) : trace := fst (m h).
Definition outcome {A : Type} (m : M A) (h : trace) : completion A :=
  snd (m h).

End Effects.

Export Effects.

Declare Scope run_scope.
Delimit Scope run_scope with run.
Notation "x <- m ;; k" := (bind m (fun x => k))
  (at level 61, m at next level, right associativity) : run_scope.
Notation "m ;; k" := (bind m (fun _ => k))
  (at level 61, right associativity) : run_scope.
Local Open Scope run_scope.

(** ** watchHandler.ts *)

Module Watch.

Local Open Scope string_scope.

Definition dquote : string := String (ascii_of_nat 34) EmptyString.

(** The fields of [argv] the handler destructures. *)
Record YargsArgs : Type := mkArgs {
  dist : string;
  shouldEval : bool;
  manifest : bool;
  outfileName : option string;
  src : string;
  shouldServe : bool
}.

(** [if (outfileName)]: [undefined] and the empty string are falsy. *)
Definition truthy (name : option string) : bool :=
  match name with
  | None => false
  | Some n => negb (String.eqb n EmptyString)
  end.

Definition logInfo (msg : string) : M unit := emit (LogInfo msg).
Definition logError (msg : string) (err : error) : M unit :=
  emit (LogError msg err).

(** Lines 44-46. *)
Definition rootDir (src : string) : string :=
  if JsString.includes src "/"
  then JsString.substring src 0 (JsString.lastIndexOf src "/" + 1)
  else ".".

(** Modelled from the spec: [getOutfilePath] is imported from
    [@metamask/snaps-utils]; the spec gives OutputPath as the join of the
    output directory and the resolved output file name, [bundle.js] when
    none is supplied. *)
Definition getOutfilePath (dist : string) (outfileName : option string)
  : string :=
  dist ++ "/" ++ match outfileName with
                 | Some n => n
                 | None => "bundle.js"
                 end.

(** The text of the error logged by [buildSnap] (lines 66-70). *)
Definition errorContext (path : option string) : string :=
  "Error "
  ++ match path with
     | None => "during initial build"
     | Some p => "while processing " ++ dquote ++ p ++ dquote
     end
  ++ ".".

Section Handlers.

Variable w : World.
Variable argv : YargsArgs.

(** The body of the [try] block of [buildSnap] (lines 55-63). *)
Definition buildSteps (outfilePath : string) : M unit :=
  call w LoadConfig ;;
  call w (Bundle (src argv) outfilePath) ;;
  (if manifest argv then call w ManifestHandler else ret tt) ;;
  (if shouldEval argv then call w (EvalHandler outfilePath) else ret tt).

(** Lines 49-74. *)
Definition buildSnap (outfilePath : string)
  (path : option string) (logMessage : option string) : M unit :=
  match logMessage with
  | Some msg => logInfo msg
  | None => ret tt
  end ;;
  try_catch (buildSteps outfilePath)
            (fun error => logError (errorContext path) error).

(** Lines 91-103. *)
Definition on_ready (outfilePath : string) : M unit :=
  try_catch
    (buildSnap outfilePath None None ;;
     if shouldServe argv then call w Serve else ret tt)
    (fun error => logError "Error during initial build." error).

(** Lines 104-108. *)
Definition on_add (outfilePath : string) (path : string) : M unit :=
  try_catch
    (buildSnap outfilePath (Some path) (Some ("File added: " ++ path)))
    (fun error =>
       logError ("Error while processing " ++ dquote ++ path ++ dquote
                 ++ ".") error).

(** Lines 109-113. *)
Definition on_change (outfilePath : string) (path : string) : M unit :=
  try_catch
    (buildSnap outfilePath (Some path) (Some ("File changed: " ++ path)))
    (fun error =>
       logError ("Error while processing " ++ dquote ++ path ++ dquote
                 ++ ".") error).

(** Line 114. *)
Definition on_unlink (path : string) : M unit :=
  logInfo ("File removed: " ++ path).

(** Lines 115-117. *)
Definition on_error (err : error) : M unit :=
  logError ("Watcher error: " ++ message err) err.

End Handlers.

(** An entry of the [ignored] option: a glob or a function of the path. *)
Inductive Matcher : Type :=
| GlobPattern (pattern : string)
| Predicate (f : string -> bool).

(** Lines 79-88. *)
Definition ignored (dist : string) : list Matcher :=
  [ GlobPattern "**/node_modules/**";
    GlobPattern ("**/" ++ dist ++ "/**");
    GlobPattern "**/test/**";
    GlobPattern "**/tests/**";
    GlobPattern "**/*.test.js";
    GlobPattern "**/*.test.ts";
    Predicate (fun str =>
                 negb (String.eqb str ".") && JsString.startsWith str ".") ].

(** The watcher passes every string of [ignored] through [path.join] before
    the glob library sees it, so the pattern is matched in normal form:
    [**/./dist/**] is matched as [**/dist/**].  The strings of [ignored]
    begin with [**] and are relative. *)
Definition normalizeIgnored (pattern : string) : list string :=
  NodePath.normalize_relative pattern.

Definition matches (m : Matcher) (path : string) : bool :=
  match m with
  | GlobPattern pattern =>
      Glob.glob_match (normalizeIgnored pattern) (Glob.split path)
  | Predicate f => f path
  end.

(** The watcher drops a path as soon as one matcher accepts it. *)
Definition isIgnored (matchers : list Matcher) (path : string) : bool :=
  existsb (fun m => matches m path) matchers.

(** What [watch] leaves behind: the values it computed once and the
    subscription, which is waiting for the end of the first scan
    ([ready = false]) or has announced it. *)
Record Session : Type := mkSession {
  s_argv : YargsArgs;
  s_rootDir : string;
  s_outfilePath : string;
  s_ignored : list Matcher;
  s_ready : bool
}.

(** Lines 30-122. *)
Definition watch (w : World) (argv : YargsArgs) : M Session :=
  (if truthy (outfileName argv)
   then call w (ValidateOutfileName
                  (match outfileName argv with
                   | Some n => n
                   | None => EmptyString
                   end))
   else ret tt) ;;
  call w (ValidateFilePath (src argv)) ;;
  call w (ValidateDirPath (dist argv) true) ;;
  let rootDir := rootDir (src argv) in
  let outfilePath := getOutfilePath (dist argv) (outfileName argv) in
  emit (ChokidarWatch rootDir) ;;
  emit (WatcherAdd rootDir) ;;
  logInfo ("Watching '" ++ rootDir ++ "' for changes...") ;;
  ret {| s_argv := argv;
         s_rootDir := rootDir;
         s_outfilePath := outfilePath;
         s_ignored := ignored (dist argv);
         s_ready := false |}.

(** The events the handlers are registered for. *)
Inductive WatcherEvent : Type :=
| Ready
| Add (path : string)
| Change (path : string)
| Unlink (path : string)
| Error (err : error).

Definition dispatch (w : World) (s : Session) (ev : WatcherEvent) : M unit :=
  match ev with
  | Ready => on_ready w (s_argv s) (s_outfilePath s)
  | Add path => on_add w (s_argv s) (s_outfilePath s) path
  | Change path => on_change w (s_argv s) (s_outfilePath s) path
  | Unlink path => on_unlink path
  | Error err => on_error err
  end.

(** What the watcher observes. *)
Inductive Notification : Type :=
| ScanComplete
| FileAdded (path : string)
| FileChanged (path : string)
| FileRemoved (path : string)
| WatcherFailure (err : error).

(** The watcher's side of the subscription, as far as the options passed by
    [watch] decide it: [ready] is emitted once, at the end of the first
    scan; with [ignoreInitial] the additions seen before that are not
    reported; a path accepted by [ignored] is never reported.  What the
    watcher withholds for reasons of its own is not part of this. *)
Definition chokidar_emit (s : Session) (n : Notification)
  : Session * option WatcherEvent :=
  match n with
  | ScanComplete =>
      if s_ready s then (s, None)
      else ({| s_argv := s_argv s;
               s_rootDir := s_rootDir s;
               s_outfilePath := s_outfilePath s;
               s_ignored := s_ignored s;
               s_ready := true |}, Some Ready)
  | FileAdded path =>
      if isIgnored (s_ignored s) path then (s, None)
      else if s_ready s then (s, Some (Add path))
      else (s, None)
  | FileChanged path =>
      if isIgnored (s_ignored s) path then (s, None)
      else (s, Some (Change path))
  | FileRemoved path =>
      if isIgnored (s_ignored s) path then (s, None)
      else (s, Some (Unlink path))
  | WatcherFailure err => (s, Some (Error err))
  end.

(** One notification: the watcher decides what to emit and the registered
    handler runs.  A handler that throws ends the session. *)
Definition session_step (w : World) (s : Session) (n : Notification)
  : M Session :=
  let (s', ev) := chokidar_emit s n in
  match ev with
  | None => ret s'
  | Some ev => dispatch w s' ev ;; ret s'
  end.

Fixpoint run_session (w : World) (s : Session) (ns : list Notification)
  : M Session :=
  match ns with
  | [] => ret s
  | n :: ns' => s' <- session_step w s n ;; run_session w s' ns'
  end.

End Watch.

Export Watch.

(** ** Vocabulary of the specification *)

Module Spec.

(** The three steps of a pipeline run. *)
Definition is_pipeline_step (e : effect) : bool :=
  match e with
  | Bundle _ _ | ManifestHandler | EvalHandler _ => true
  | _ => false
  end.

Definition is_validation (e : effect) : bool :=
  match e with
  | ValidateOutfileName _ | ValidateFilePath _ | ValidateDirPath _ _ => true
  | _ => false
  end.

Definition is_subscription (e : effect) : bool :=
  match e with
  | ChokidarWatch _ | WatcherAdd _ => true
  | _ => false
  end.

Definition is_serve (e : effect) : bool :=
  match e with
  | Serve => true
  | _ => false
  end.

Definition is_log_error (e : effect) : bool :=
  match e with
  | LogError _ _ => true
  | _ => false
  end.

(** What a pipeline run may do at all. *)
Definition is_build_effect (e : effect) : bool :=
  match e with
  | LogInfo _ | LogError _ _ | LoadConfig
  | Bundle _ _ | ManifestHandler | EvalHandler _ => true
  | _ => false
  end.

Definition count (p : effect -> bool) (t : trace) : nat :=
  List.length (filter p t).

(** The collaborators invoked through [call]; the loggers and the
    registration with the watcher are not asked whether they fail. *)
Definition fallible (e : effect) : bool :=
  match e with
  | LogInfo _ | LogError _ _ | ChokidarWatch _ | WatcherAdd _ => false
  | _ => true
  end.

(** During the run that added [d] to the history [h], the call [e] was made
    and failed with [err]. *)
Definition failed (w : World) (h d : trace) (e : effect) (err : error)
  : Prop :=
  fallible e = true
  /\ exists pre post, d = pre ++ e :: post /\ w (h ++ pre) e = Some err.

(** What [buildSnap] logs before and after its [try] block. *)
Definition info_log (logMessage : option string) : trace :=
  match logMessage with
  | Some msg => [LogInfo msg]
  | None => []
  end.

Definition error_log (path : option string) (r : completion unit) : trace :=
  match r with
  | Returned _ => []
  | Thrown e => [LogError (errorContext path) e]
  end.

(** The steps of one pipeline run, in the order of the source. *)
Definition steps (argv : YargsArgs) (outfilePath : string) : list effect :=
  Bundle (src argv) outfilePath
  :: (if manifest argv then [ManifestHandler] else [])
  ++ (if shouldEval argv then [EvalHandler outfilePath] else []).

(** The validations of the setup phase, in the order of the source. *)
Definition validations (argv : YargsArgs) : list effect :=
  (match outfileName argv with
   | Some n =>
       if String.eqb n EmptyString then [] else [ValidateOutfileName n]
   | None => []
   end)
  ++ [ValidateFilePath (src argv); ValidateDirPath (dist argv) true].

(** What the [ready] handler does once the first build is over, [h] being
    the history at that point. *)
Definition serve_log (w : World) (argv : YargsArgs) (h : trace) : trace :=
  if shouldServe argv then
    Serve :: match w h Serve with
             | Some e => [LogError "Error during initial build."%string e]
             | None => []
             end
  else [].

(** What [watch] does once its arguments are validated. *)
Definition subscription_log (argv : YargsArgs) : trace :=
  [ ChokidarWatch (rootDir (src argv));
    WatcherAdd (rootDir (src argv));
    LogInfo ("Watching '" ++ rootDir (src argv) ++ "' for changes...")%string ].

(** The session as [watch] returns it. *)
Definition new_session (argv : YargsArgs) : Session :=
  {| s_argv := argv;
     s_rootDir := rootDir (src argv);
     s_outfilePath := getOutfilePath (dist argv) (outfileName argv);
     s_ignored := ignored (dist argv);
     s_ready := false |}.

(** Calls made one after the other until one fails. *)
Fixpoint run_calls (w : World) (cs : list effect) : M unit :=
  match cs with
  | [] => ret tt
  | c :: cs' => call w c ;; run_calls w cs'
  end.

(** Paths. *)
Definition no_separator (s : string) : Prop :=
  forall a b, s <> (a ++ "/" ++ b)%string.

Definition has_segment (seg path : string) : Prop :=
  In seg (Glob.split path).

(** The segments [segs] occur in [path], one after the other. *)
Definition goes_through (segs : list string) (path : string) : Prop :=
  exists parents rest, Glob.split path = parents ++ segs ++ rest.



(** The last segment of [path] ends with [suffix]. *)
Definition file_name_ends_with (suffix path : string) : Prop :=
  exists parents stem, Glob.split path = parents ++ [(stem ++ suffix)%string].

Definition final_segment (path : string) : string :=
  last (Glob.split path) EmptyString.

Definition notification_path (n : Notification) : option string :=
  match n with
  | FileAdded p | FileChanged p | FileRemoved p => Some p
  | ScanComplete | WatcherFailure _ => None
  end.

(** The session as [watch] leaves it for the arguments [argv], once the
    first scan is over. *)
Definition active_session (argv : YargsArgs) : Session :=
  {| s_argv := argv;
     s_rootDir := rootDir (src argv);
     s_outfilePath := getOutfilePath (dist argv) (outfileName argv);
     s_ignored := ignored (dist argv);
     s_ready := true |}.

(** Sample inputs. *)
Definition sample_argv : YargsArgs :=
  {| dist := "dist"%string; shouldEval := true; manifest := true;
     outfileName := None; src := "src/index.js"%string;
     shouldServe := true |}.

Definition boom : error := mkError "boom"%string.

Definition all_fine : World := fun _ _ => None.

Definition bundle_fails : World :=
  fun _ e => match e with Bundle _ _ => Some boom | _ => None end.

Definition manifest_fails : World :=
  fun _ e => match e with ManifestHandler => Some boom | _ => None end.

Definition serve_fails : World :=
  fun _ e => match e with Serve => Some boom | _ => None end.

Definition source_missing : World :=
  fun _ e => match e with ValidateFilePath _ => Some boom | _ => None end.

End Spec.

Export Spec.

(** ** Further vocabulary: what a session may do *)

Module Cover.

Definition is_load_config (e : effect) : bool :=
  match e with
  | LoadConfig => true
  | _ => false
  end.

Definition is_bundle (e : effect) : bool :=
  match e with
  | Bundle _ _ => true
  | _ => false
  end.

Definition is_manifest (e : effect) : bool :=
  match e with
  | ManifestHandler => true
  | _ => false
  end.

Definition is_eval (e : effect) : bool :=
  match e with
  | EvalHandler _ => true
  | _ => false
  end.

(** The effects the handlers of a session with arguments [argv] and bundle
    location [out] may have: the bundler is given the source and [out], the
    evaluator [out]; the optional steps need their flag; the setup phase is
    over. *)
Definition permitted (argv : YargsArgs) (out : string) (e : effect) : bool :=
  match e with
  | LogInfo _ | LogError _ _ | LoadConfig => true
  | Bundle a b => String.eqb a (src argv) && String.eqb b out
  | ManifestHandler => manifest argv
  | EvalHandler b => shouldEval argv && String.eqb b out
  | Serve => shouldServe argv
  | ValidateOutfileName _ | ValidateFilePath _ | ValidateDirPath _ _
  | ChokidarWatch _ | WatcherAdd _ => false
  end.

Definition is_scan_complete (n : Notification) : bool :=
  match n with
  | ScanComplete => true
  | _ => false
  end.



(** A source path outside the working directory. *)
Definition outside_argv : YargsArgs :=
  {| dist := "dist"%string; shouldEval := false; manifest := false;
     outfileName := Some "snap.js"%string;
     src := "../snap/index.js"%string; shouldServe := false |}.

End Cover.

Export Cover.

(** ** Strings: general facts *)

Section Strings.

Local Open Scope string_scope.

Lemma str_app_assoc (a b c : string) : (a ++ b) ++ c = a ++ b ++ c.
Proof. induction a as [ | x a IH ]; cbn; [ reflexivity | now rewrite IH ]. Qed.

Lemma str_app_nil_r (a : string) : a ++ EmptyString = a.
Proof. induction a as [ | x a IH ]; cbn; [ reflexivity | now rewrite IH ]. Qed.

Lemma str_length_app (a b : string) :
  String.length (a ++ b) = (String.length a + String.length b)%nat.
Proof. induction a as [ | x a IH ]; cbn; [ reflexivity | now rewrite IH ]. Qed.

Lemma str_substring_prefix (a b : string) :
  String.substring 0 (String.length a) (a ++ b) = a.
Proof.
  induction a as [ | x a IH ]; cbn.
  - destruct b; reflexivity.
  - now rewrite IH.
Qed.

Lemma prefix_slash (c : ascii) (s : string) :
  String.prefix "/" (String c s) = Ascii.eqb c "/".
Proof.
  change (String.prefix "/" (String c s))
    with (if ascii_dec "/" c then String.prefix EmptyString s else false).
  destruct (ascii_dec "/" c) as [ <- | Hne ].
  - rewrite Ascii.eqb_refl. destruct s; reflexivity.
  - symmetry. apply Ascii.eqb_neq. congruence.
Qed.

Lemma no_separator_cons (c : ascii) (s : string) :
  no_separator (String c s) -> c <> "/"%char /\ no_separator s.
Proof.
  intros Hno. split.
  - intros ->. exact (Hno EmptyString s eq_refl).
  - intros a b ->. exact (Hno (String c a) b eq_refl).
Qed.

Lemma no_separator_search (s : string) :
  no_separator s ->
  JsString.includes s "/" = false /\ JsString.lastIndexOf s "/" = (-1)%Z.
Proof.
  induction s as [ | c s IH ]; intros Hno.
  - split; reflexivity.
  - apply no_separator_cons in Hno. destruct Hno as [Hc Hno].
    destruct (IH Hno) as [Hinc Hlast].
    cbn [JsString.includes JsString.lastIndexOf].
    rewrite prefix_slash, Hinc, Hlast.
    apply Ascii.eqb_neq in Hc. rewrite Hc. split; reflexivity.
Qed.

Lemma separator_found (dir file : string) :
  JsString.includes (dir ++ "/" ++ file) "/" = true.
Proof.
  induction dir as [ | c dir IH ].
  - cbn [append JsString.includes]. rewrite prefix_slash. reflexivity.
  - cbn [append JsString.includes] in IH |- *. rewrite IH.
    apply orb_true_r.
Qed.

Lemma last_separator (dir file : string) :
  no_separator file ->
  JsString.lastIndexOf (dir ++ "/" ++ file) "/" = JsString.len dir.
Proof.
  intros Hno. induction dir as [ | c dir IH ].
  - cbn [append]. cbn [JsString.lastIndexOf].
    destruct (no_separator_search file Hno) as [_ ->].
    rewrite prefix_slash. reflexivity.
  - cbn [append JsString.lastIndexOf] in IH |- *. rewrite IH.
    unfold JsString.len. cbn [String.length].
    destruct (0 <=? Z.of_nat (String.length dir))%Z eqn:Hle.
    + lia.
    + apply Z.leb_gt in Hle. lia.
Qed.

Lemma substring_to_separator (dir file : string) :
  JsString.substring (dir ++ "/" ++ file) 0 (JsString.len dir + 1)
  = dir ++ "/".
Proof.
  unfold JsString.substring, JsString.clamp, JsString.len.
  rewrite str_length_app. cbn [append String.length].
  replace (Z.min (Z.max 0 0) (Z.of_nat (String.length dir + S (String.length file))))
    with 0%Z by lia.
  replace (Z.min (Z.max (Z.of_nat (String.length dir) + 1) 0)
             (Z.of_nat (String.length dir + S (String.length file))))
    with (Z.of_nat (String.length dir) + 1)%Z by lia.
  replace (Z.min 0 (Z.of_nat (String.length dir) + 1)) with 0%Z by lia.
  replace (Z.max 0 (Z.of_nat (String.length dir) + 1))
    with (Z.of_nat (String.length dir) + 1)%Z by lia.
  replace (Z.to_nat (Z.of_nat (String.length dir) + 1 - 0))
    with (String.length (dir ++ "/")).
  - change (String "/" file) with ("/" ++ file).
    rewrite <- str_app_assoc. apply str_substring_prefix.
  - rewrite str_length_app. cbn [String.length]. lia.
Qed.

(** Every string either has no separator or is cut in one way at its last
    separator. *)
Lemma separator_cases (s : string) :
  no_separator s
  \/ exists dir file, s = dir ++ "/" ++ file /\ no_separator file.
Proof.
  induction s as [ | c s IH ].
  - left. intros [ | ? ? ] b Heq; discriminate Heq.
  - destruct IH as [ Hno | (dir & file & -> & Hno) ].
    + destruct (ascii_dec c "/") as [ -> | Hne ].
      * right. exists EmptyString, s. split; [ reflexivity | exact Hno ].
      * left. intros [ | x a ] b Heq; cbn in Heq; injection Heq as Hc Hs.
        -- contradiction.
        -- exact (Hno a b Hs).
    + right. exists (String c dir), file. split; [ reflexivity | exact Hno ].
Qed.

Lemma rootDir_with_separator (dir file : string) :
  no_separator file -> rootDir (dir ++ "/" ++ file) = dir ++ "/".
Proof.
  intros Hno. unfold rootDir.
  rewrite separator_found, (last_separator dir file Hno).
  apply substring_to_separator.
Qed.

Lemma rootDir_without_separator (s : string) :
  no_separator s -> rootDir s = ".".
Proof.
  intros Hno. unfold rootDir.
  destruct (no_separator_search s Hno) as [-> _]. reflexivity.
Qed.

Lemma errorContext_path (p : string) :
  errorContext (Some p)
  = "Error while processing " ++ dquote ++ p ++ dquote ++ ".".
Proof.
  unfold errorContext.
  rewrite !str_app_assoc. reflexivity.
Qed.

End Strings.

(** ** Runs: general facts *)

Section Runs.

Variable w : World.

Lemma bind_run {A B : Type} (m : M A) (k : A -> M B) (h : trace) :
  bind m k h =
  match outcome m h with
  | Returned a =>
      (effects m h ++ effects (k a) (h ++ effects m h),
       outcome (k a) (h ++ effects m h))
  | Thrown e => (effects m h, Thrown e)
  end.
Proof.
  unfold bind, outcome, effects.
  destruct (m h) as [d1 [a | e]]; cbn; [ | reflexivity ].
  destruct (k a (h ++ d1)); reflexivity.
Qed.

Lemma try_catch_run {A : Type} (m : M A) (handler : error -> M A)
  (h : trace) :
  try_catch m handler h =
  match outcome m h with
  | Returned a => (effects m h, Returned a)
  | Thrown e =>
      (effects m h ++ effects (handler e) (h ++ effects m h),
       outcome (handler e) (h ++ effects m h))
  end.
Proof.
  unfold try_catch, outcome, effects.
  destruct (m h) as [d1 [a | e]]; cbn; [ reflexivity | ].
  destruct (handler e (h ++ d1)); reflexivity.
Qed.

Lemma run_eta {A : Type} (m : M A) (h : trace) :
  m h = (effects m h, outcome m h).
Proof. unfold effects, outcome. destruct (m h); reflexivity. Qed.

(** A handler attached to a run that always returns is never entered. *)
Lemma try_catch_returned {A : Type} (m : M A) (handler : error -> M A)
  (h : trace) (a : A) :
  outcome m h = Returned a -> try_catch m handler h = m h.
Proof.
  intros Hret. rewrite try_catch_run, Hret, (run_eta m h), Hret.
  reflexivity.
Qed.

Lemma run_calls_cons (c : effect) (cs : list effect) (h : trace) :
  run_calls w (c :: cs) h =
  match w h c with
  | None =>
      (c :: effects (run_calls w cs) (h ++ [c]),
       outcome (run_calls w cs) (h ++ [c]))
  | Some err => ([c], Thrown err)
  end.
Proof.
  cbn [run_calls]. rewrite bind_run. unfold call, outcome, effects; cbn.
  destruct (w h c); reflexivity.
Qed.

(** Either every call succeeded and all were made, or the calls stop at the
    first one that fails. *)
Lemma run_calls_spec (cs : list effect) :
  forall h,
    (run_calls w cs h = (cs, Returned tt)
     /\ forall pre c post, cs = pre ++ c :: post -> w (h ++ pre) c = None)
    \/ (exists pre c rest e,
           cs = pre ++ c :: rest
           /\ run_calls w cs h = (pre ++ [c], Thrown e)
           /\ w (h ++ pre) c = Some e
           /\ forall pre' c' post',
               pre = pre' ++ c' :: post' -> w (h ++ pre') c' = None).
Proof.
  induction cs as [ | c cs IH ]; intros h.
  - left. split; [ reflexivity | ].
    intros [ | ? ? ] ? ? Heq; discriminate Heq.
  - rewrite run_calls_cons. destruct (w h c) as [ err | ] eqn:Hc.
    + right. exists [], c, cs, err. cbn. rewrite app_nil_r.
      repeat split; auto.
      intros [ | ? ? ] ? ? Heq; discriminate Heq.
    + destruct (IH (h ++ [c])) as [ [Hrun Hok] | (pre & c1 & rest & e & Hcs & Hrun & Hfail & Hok) ].
      * left. rewrite (run_eta (run_calls w cs)) in Hrun.
        injection Hrun as He Ho. rewrite He, Ho. split; [ reflexivity | ].
        intros [ | x pre ] c1 post Heq; cbn in Heq; injection Heq as ? ?; subst.
        -- rewrite app_nil_r. exact Hc.
        -- specialize (Hok pre c1 post eq_refl).
           rewrite <- app_assoc in Hok. exact Hok.
      * right. exists (c :: pre), c1, rest, e.
        rewrite (run_eta (run_calls w cs)) in Hrun.
        injection Hrun as He Ho. rewrite He, Ho. subst cs.
        rewrite <- app_assoc in Hfail. repeat split; auto.
        intros [ | x pre' ] c' post' Heq; cbn in Heq; injection Heq as ? ?; subst.
        -- rewrite app_nil_r. exact Hc.
        -- specialize (Hok pre' c' post' eq_refl).
           rewrite <- app_assoc in Hok. exact Hok.
Qed.

End Runs.

(** ** The rebuild function *)

Section BuildSnap.

Variable w : World.
Variable argv : YargsArgs.
Variable outfilePath : string.

Lemma call_run (e : effect) (h : trace) :
  call w e h =
  ([e], match w h e with None => Returned tt | Some err => Thrown err end).
Proof. reflexivity. Qed.

(** The [try] block makes the calls [LoadConfig :: steps] in that order and
    stops at the first failure. *)
Lemma buildSteps_calls (h : trace) :
  buildSteps w argv outfilePath h =
  run_calls w (LoadConfig :: steps argv outfilePath) h.
Proof.
  unfold buildSteps, steps.
  destruct (manifest argv), (shouldEval argv); cbn [app run_calls];
    unfold bind, call, ret;
    repeat
      (rewrite ?app_nil_r;
       match goal with
       | |- context [w ?a ?b] => destruct (w a b)
       end; cbn [app fst snd]);
    rewrite ?app_nil_r; reflexivity.
Qed.

(** [buildSnap] logs the message it was given, runs the [try] block and
    logs the error that ended it, if any; it always returns. *)
Lemma buildSnap_run (path logMessage : option string) (h : trace) :
  buildSnap w argv outfilePath path logMessage h =
  (info_log logMessage
   ++ effects (buildSteps w argv outfilePath) (h ++ info_log logMessage)
   ++ error_log path
        (outcome (buildSteps w argv outfilePath) (h ++ info_log logMessage)),
   Returned tt).
Proof.
  unfold buildSnap.
  set (steps_run := buildSteps w argv outfilePath).
  assert (Htry : forall h',
    try_catch steps_run
      (fun error => logError (errorContext path) error) h'
    = (effects steps_run h' ++ error_log path (outcome steps_run h'),
       Returned tt)).
  { intros h'. rewrite try_catch_run.
    destruct (outcome steps_run h') as [ [] | e ]; cbn [error_log].
    - rewrite app_nil_r. reflexivity.
    - reflexivity. }
  destruct logMessage as [ msg | ]; rewrite bind_run; cbn [info_log].
  - change (outcome (logInfo msg) h) with (@Returned unit tt).
    change (effects (logInfo msg) h) with [LogInfo msg].
    cbv iota. unfold effects at 1, outcome at 1.
    rewrite Htry. reflexivity.
  - change (outcome (@ret unit tt) h) with (@Returned unit tt).
    change (effects (@ret unit tt) h) with (@nil effect).
    cbv iota. unfold effects at 1, outcome at 1.
    rewrite Htry. reflexivity.
Qed.

End BuildSnap.

(** ** Lists of effects *)

Lemma app_eq_cons_split {A : Type} (l1 l2 p q : list A) (c : A) :
  l1 ++ l2 = p ++ c :: q ->
  (exists m, l1 = p ++ c :: m /\ q = m ++ l2)
  \/ (exists m, p = l1 ++ m /\ l2 = m ++ c :: q).
Proof.
  revert p. induction l1 as [ | x l1 IH ]; intros p Heq.
  - right. exists p. split; [ reflexivity | exact Heq ].
  - destruct p as [ | y p ]; cbn in Heq; injection Heq as Hx Heq.
    + left. exists l1. subst. split; reflexivity.
    + subst y. destruct (IH p Heq) as [ [m [H1 H2]] | [m [H1 H2]] ].
      * left. exists m. subst. split; reflexivity.
      * right. exists m. subst. split; reflexivity.
Qed.

Lemma fallible_not_in (l p q : list effect) (c : effect) :
  fallible c = true ->
  (forall x, In x l -> fallible x = false) ->
  l = p ++ c :: q -> False.
Proof.
  intros Hc Hl Heq.
  assert (Hin : In c l) by (rewrite Heq; apply in_elt).
  rewrite (Hl c Hin) in Hc. discriminate Hc.
Qed.

(** A fallible call found in [l1 ++ l2 ++ l3], where [l1] and [l3] only hold
    log lines, sits in [l2]. *)
Lemma fallible_in_middle (l1 l2 l3 p q : list effect) (c : effect) :
  fallible c = true ->
  (forall x, In x l1 -> fallible x = false) ->
  (forall x, In x l3 -> fallible x = false) ->
  l1 ++ l2 ++ l3 = p ++ c :: q ->
  exists p' q', p = l1 ++ p' /\ q = q' ++ l3 /\ l2 = p' ++ c :: q'.
Proof.
  intros Hc H1 H3 Heq.
  destruct (app_eq_cons_split _ _ _ _ _ Heq) as [ [m [Hl1 _]] | [m [Hp Hrest]] ].
  - exfalso. exact (fallible_not_in _ _ _ _ Hc H1 Hl1).
  - destruct (app_eq_cons_split _ _ _ _ _ Hrest) as [ [m' [Hl2 Hq]] | [m' [_ Hl3]] ].
    + exists m, m'. auto.
    + exfalso. exact (fallible_not_in _ _ _ _ Hc H3 Hl3).
Qed.

Lemma info_log_infallible (logMessage : option string) :
  forall x, In x (info_log logMessage) -> fallible x = false.
Proof.
  destruct logMessage; cbn; intros x Hin; [ destruct Hin as [ <- | [] ] | destruct Hin ].
  reflexivity.
Qed.

Lemma error_log_infallible (path : option string) (r : completion unit) :
  forall x, In x (error_log path r) -> fallible x = false.
Proof.
  destruct r; cbn; intros x Hin; [ destruct Hin | destruct Hin as [ <- | [] ] ].
  reflexivity.
Qed.

Section BuildSnapFacts.

Variable w : World.
Variable argv : YargsArgs.
Variable outfilePath : string.

(** The two ways a run of [buildSnap] can go. *)
Lemma buildSnap_cases (path logMessage : option string) (h : trace) :
  (effects (buildSnap w argv outfilePath path logMessage) h
   = info_log logMessage ++ (LoadConfig :: steps argv outfilePath)
   /\ outcome (buildSteps w argv outfilePath) (h ++ info_log logMessage)
      = Returned tt
   /\ forall pre c post,
       (LoadConfig :: steps argv outfilePath) = pre ++ c :: post ->
       w (h ++ info_log logMessage ++ pre) c = None)
  \/ (exists pre c rest e,
         (LoadConfig :: steps argv outfilePath) = pre ++ c :: rest
         /\ effects (buildSnap w argv outfilePath path logMessage) h
            = info_log logMessage ++ pre
              ++ [c; LogError (errorContext path) e]
         /\ outcome (buildSteps w argv outfilePath)
              (h ++ info_log logMessage) = Thrown e
         /\ w (h ++ info_log logMessage ++ pre) c = Some e
         /\ forall pre' c' post',
             pre = pre' ++ c' :: post' ->
             w (h ++ info_log logMessage ++ pre') c' = None).
Proof.
  unfold effects at 1 2. rewrite buildSnap_run. cbn [fst].
  unfold effects, outcome. rewrite buildSteps_calls.
  destruct (run_calls_spec w (LoadConfig :: steps argv outfilePath) (h ++ info_log logMessage))
    as [ [Hrun Hok] | (pre & c & rest & e & Hcs & Hrun & Hfail & Hok) ];
    rewrite Hrun; cbn [fst snd error_log].
  - left. rewrite app_nil_r. repeat split; auto.
    intros pre c post Heq. rewrite app_assoc. eauto.
  - right. exists pre, c, rest, e. rewrite <- app_assoc in Hfail.
    repeat split; auto.
    + rewrite <- app_assoc. reflexivity.
    + intros pre' c' post' Heq. rewrite app_assoc. eauto.
Qed.

Lemma buildSnap_returns (path logMessage : option string) (h : trace) :
  outcome (buildSnap w argv outfilePath path logMessage) h = Returned tt.
Proof. unfold outcome. rewrite buildSnap_run. reflexivity. Qed.

(** A call that fails is the last one of the run; only the error line
    follows it. *)
Lemma buildSnap_failed (path logMessage : option string) (h : trace)
  (c : effect) (err : error) :
  failed w h (effects (buildSnap w argv outfilePath path logMessage) h)
    c err ->
  exists pre rest,
    (LoadConfig :: steps argv outfilePath) = pre ++ c :: rest
    /\ effects (buildSnap w argv outfilePath path logMessage) h
       = info_log logMessage ++ pre ++ [c; LogError (errorContext path) err]
    /\ outcome (buildSteps w argv outfilePath) (h ++ info_log logMessage)
       = Thrown err.
Proof.
  intros [Hfal (p & q & Heq & Hw)].
  unfold effects in Heq. rewrite buildSnap_run in Heq. cbn [fst] in Heq.
  apply fallible_in_middle in Heq;
    [ | exact Hfal | apply info_log_infallible | apply error_log_infallible ].
  destruct Heq as (p' & q' & -> & _ & Heq).
  unfold effects in Heq. rewrite buildSteps_calls in Heq.
  destruct (buildSnap_cases path logMessage h)
    as [ (Heff & Hout & Hok) | (pre & c0 & rest & e & Hcs & Heff & Hout & Hfail & Hok) ].
  - exfalso.
    unfold outcome in Hout. rewrite buildSteps_calls in Hout.
    destruct (run_calls_spec w (LoadConfig :: steps argv outfilePath) (h ++ info_log logMessage))
      as [ [Hrun _] | (pre & c0 & rest & e & _ & Hrun & _) ].
    + rewrite Hrun in Heq. cbn [fst] in Heq.
      rewrite (Hok p' c q' Heq) in Hw. discriminate Hw.
    + rewrite Hrun in Hout. discriminate Hout.
  - assert (Hdone : fst (run_calls w (LoadConfig :: steps argv outfilePath) (h ++ info_log logMessage))
                    = pre ++ [c0]).
    { destruct (run_calls_spec w (LoadConfig :: steps argv outfilePath) (h ++ info_log logMessage))
        as [ [Hrun _] | (pre1 & c1 & rest1 & e1 & Hcs1 & Hrun & Hf1 & Hok1) ].
      - unfold outcome in Hout. rewrite buildSteps_calls in Hout.
        rewrite Hrun in Hout. discriminate Hout.
      - rewrite Hrun. cbn [fst].
        unfold effects in Heff. rewrite buildSnap_run in Heff.
        cbn [fst] in Heff. unfold effects, outcome in Heff.
        rewrite buildSteps_calls in Heff.
        rewrite Hrun in Heff. cbn [fst snd error_log] in Heff.
        apply app_inv_head in Heff.
        change [c0; LogError (errorContext path) e]
          with ([c0] ++ [LogError (errorContext path) e]) in Heff.
        change [LogError (errorContext path) e1]
          with ([] ++ [LogError (errorContext path) e1]) in Heff at 1.
        rewrite app_nil_l in Heff.
        rewrite (app_assoc pre [c0]) in Heff.
        apply app_inj_tail in Heff. destruct Heff as [Heff _].
        exact Heff. }
    rewrite Hdone in Heq.
    destruct (app_eq_cons_split _ _ _ _ _ Heq) as [ [m [Hpre _]] | [m [Hp Hlast]] ].
    + exfalso. rewrite (Hok p' c m Hpre) in Hw. discriminate Hw.
    + destruct m as [ | x m ]; cbn in Hlast.
      * injection Hlast as Hc Hq. subst c0 q'. rewrite app_nil_r in Hp. subst p'.
        rewrite Hfail in Hw. injection Hw as ->.
        exists pre, rest. auto.
      * injection Hlast as _ Hnil. destruct m; discriminate Hnil.
Qed.

End BuildSnapFacts.

(** ** Shapes of step lists *)

(** Enumerate the ways a list written out with [::] can be cut as
    [p ++ c :: r]. *)
Lemma cons_eq_inv {A : Type} (x y : A) (l m : list A) :
  x :: l = y :: m -> x = y /\ l = m.
Proof. intros H. injection H as Hx Hl. split; assumption. Qed.

Ltac enum_cut H :=
  repeat
    match type of H with
    | _ :: _ = ?p ++ _ :: _ =>
        destruct p as [ | ? p ]; cbn [app] in H;
        apply cons_eq_inv in H;
        [ destruct H as [? ?] | destruct H as [? H] ]
    | [] = ?p ++ _ :: _ => destruct p; discriminate H
    end.

(** Decide membership in a list written out with [::] and [++]. *)
Ltac in_cases H :=
  repeat
    (cbn [In app] in H;
     match type of H with
     | In _ (_ ++ _) => apply in_app_or in H
     | _ \/ _ => destruct H as [ H | H ]
     | False => destruct H
     end).

Lemma filter_all {A : Type} (p : A -> bool) (l : list A) :
  (forall x, In x l -> p x = true) -> filter p l = l.
Proof.
  induction l as [ | x l IH ]; intros Hall; [ reflexivity | ].
  cbn. rewrite (Hall x (or_introl eq_refl)). f_equal.
  apply IH. intros y Hy. apply Hall. right. exact Hy.
Qed.

Lemma filter_none {A : Type} (p : A -> bool) (l : list A) :
  (forall x, In x l -> p x = false) -> filter p l = [].
Proof.
  induction l as [ | x l IH ]; intros Hall; [ reflexivity | ].
  cbn. rewrite (Hall x (or_introl eq_refl)).
  apply IH. intros y Hy. apply Hall. right. exact Hy.
Qed.

Lemma firstn_prefix {A : Type} (l1 l2 : list A) :
  firstn (List.length l1) (l1 ++ l2) = l1.
Proof. induction l1 as [ | x l1 IH ]; cbn; [ reflexivity | now rewrite IH ]. Qed.

Lemma steps_are_pipeline_steps (argv : YargsArgs) (out : string) :
  forall x, In x (steps argv out) -> is_pipeline_step x = true.
Proof.
  unfold steps. intros x Hin.
  destruct (manifest argv), (shouldEval argv); cbn in Hin;
    in_cases Hin; subst; reflexivity.
Qed.

Lemma steps_are_fallible (argv : YargsArgs) (out : string) :
  forall x, In x (LoadConfig :: steps argv out) -> fallible x = true.
Proof.
  intros x [ <- | Hin ]; [ reflexivity | ].
  apply steps_are_pipeline_steps in Hin. destruct x; try discriminate Hin; reflexivity.
Qed.

Lemma info_log_no_step (logMessage : option string) :
  filter is_pipeline_step (info_log logMessage) = [].
Proof. destruct logMessage; reflexivity. Qed.

(** The steps made up to a failing call are an initial part of [steps]. *)
Lemma calls_prefix_steps (argv : YargsArgs) (out : string)
  (pre rest : list effect) (c : effect) :
  LoadConfig :: steps argv out = pre ++ c :: rest ->
  exists k, filter is_pipeline_step (pre ++ [c]) = firstn k (steps argv out).
Proof.
  intros Hcut. destruct pre as [ | x pre ]; cbn [app] in Hcut;
    injection Hcut as Hx Hsteps.
  - subst c. exists 0. reflexivity.
  - subst x. exists (List.length (pre ++ [c])).
    cbn [app filter is_pipeline_step].
    rewrite filter_all.
    + rewrite Hsteps.
      change (c :: rest) with ([c] ++ rest). rewrite app_assoc.
      symmetry. apply firstn_prefix.
    + intros y Hy. apply (steps_are_pipeline_steps argv out).
      rewrite Hsteps. apply in_app_or in Hy. apply in_or_app.
      destruct Hy as [ Hy | [ <- | [] ] ]; [ left; exact Hy | right; left; reflexivity ].
Qed.

(** Nothing precedes the bundle step but the configuration being loaded. *)
Lemma cut_at_bundle (argv : YargsArgs) (out : string)
  (pre rest : list effect) :
  LoadConfig :: steps argv out = pre ++ Bundle (src argv) out :: rest ->
  pre = [LoadConfig].
Proof.
  unfold steps. intros Hcut.
  destruct (manifest argv), (shouldEval argv); cbn [app] in Hcut;
    enum_cut Hcut; subst; try discriminate; reflexivity.
Qed.

(** Only the bundle step precedes the manifest step. *)
Lemma cut_at_manifest (argv : YargsArgs) (out : string)
  (pre rest : list effect) :
  LoadConfig :: steps argv out = pre ++ ManifestHandler :: rest ->
  pre = [LoadConfig; Bundle (src argv) out].
Proof.
  unfold steps. intros Hcut.
  destruct (manifest argv), (shouldEval argv); cbn [app] in Hcut;
    enum_cut Hcut; subst; try discriminate; reflexivity.
Qed.

(** ** C4 *)

(** C4. Within one run of [buildSnap] the pipeline steps are made in the
    order bundle, manifest check (if enabled), eval (if enabled): the steps of
    a run are an initial part of [steps], and all of [steps] when no call
    fails.  A call that fails is the last one of its run, followed by the
    error line only; so a failing bundle step leaves neither the manifest nor
    the eval step in the run, and a failing manifest step leaves no eval
    step. *)
Theorem buildSnap_steps_ordered_and_short_circuit
  (w : World) (argv : YargsArgs) (outfilePath : string)
  (path logMessage : option string) (h : trace) :
  let d := effects (buildSnap w argv outfilePath path logMessage) h in
  (exists k,
      filter is_pipeline_step d = firstn k (steps argv outfilePath))
  /\ ((forall c err, ~ failed w h d c err) ->
      filter is_pipeline_step d = steps argv outfilePath)
  /\ (forall c err,
         failed w h d c err ->
         exists pre, d = pre ++ [c; LogError (errorContext path) err])
  /\ (forall err,
         failed w h d (Bundle (src argv) outfilePath) err ->
         ~ In ManifestHandler d /\ forall b, ~ In (EvalHandler b) d)
  /\ (forall err,
         failed w h d ManifestHandler err ->
         forall b, ~ In (EvalHandler b) d).
Proof.
  intros d. subst d.
  assert (Hsuccess :
    filter is_pipeline_step
      (info_log logMessage ++ LoadConfig :: steps argv outfilePath)
    = steps argv outfilePath).
  { rewrite filter_app, info_log_no_step.
    cbn [app filter is_pipeline_step].
    apply filter_all, steps_are_pipeline_steps. }
  split; [ | split; [ | split; [ | split ] ] ].
  - destruct (buildSnap_cases w argv outfilePath path logMessage h)
      as [ (Heff & _) | (pre & c & rest & e & Hcs & Heff & _) ];
      rewrite Heff.
    + exists (List.length (steps argv outfilePath)).
      rewrite Hsuccess. symmetry. apply firstn_all.
    + destruct (calls_prefix_steps argv outfilePath pre rest c Hcs) as [k Hk].
      exists k. rewrite <- Hk.
      change [c; LogError (errorContext path) e]
        with ([c] ++ [LogError (errorContext path) e]).
      rewrite !filter_app, info_log_no_step. cbn [app].
      change (filter is_pipeline_step [LogError (errorContext path) e])
        with (@nil effect).
      rewrite app_nil_r. reflexivity.
  - intros Hnone.
    destruct (buildSnap_cases w argv outfilePath path logMessage h)
      as [ (Heff & _) | (pre & c & rest & e & Hcs & Heff & _ & Hfail & _) ].
    + rewrite Heff. exact Hsuccess.
    + exfalso. apply (Hnone c e). split.
      * apply (steps_are_fallible argv outfilePath). rewrite Hcs. apply in_elt.
      * exists (info_log logMessage ++ pre), [LogError (errorContext path) e].
        split; [ rewrite Heff, <- app_assoc; reflexivity | ].
        exact Hfail.
  - intros c err Hfailed.
    destruct (buildSnap_failed w argv outfilePath path logMessage h c err Hfailed)
      as (pre & rest & _ & Heff & _).
    exists (info_log logMessage ++ pre). rewrite Heff, <- app_assoc. reflexivity.
  - intros err Hfailed.
    destruct (buildSnap_failed w argv outfilePath path logMessage h _ err Hfailed)
      as (pre & rest & Hcs & Heff & _).
    apply cut_at_bundle in Hcs. subst pre. rewrite Heff.
    split; [ | intros b ]; intros Hin;
      destruct logMessage; cbn [info_log] in Hin; in_cases Hin;
      discriminate Hin.
  - intros err Hfailed b.
    destruct (buildSnap_failed w argv outfilePath path logMessage h _ err Hfailed)
      as (pre & rest & Hcs & Heff & _).
    apply cut_at_manifest in Hcs. subst pre. rewrite Heff. intros Hin.
    destruct logMessage; cbn [info_log] in Hin; in_cases Hin;
      discriminate Hin.
Qed.

Lemma buildSnap_steps_witness :
  let d := effects (buildSnap bundle_fails sample_argv "dist/bundle.js"
                      None None) [] in
  failed bundle_fails [] d (Bundle "src/index.js" "dist/bundle.js") boom
  /\ ~ In ManifestHandler d
  /\ ~ In (EvalHandler "dist/bundle.js") d.
Proof.
  intros d.
  assert (Hf : failed bundle_fails [] d
                 (Bundle "src/index.js" "dist/bundle.js") boom).
  { split; [ reflexivity | ].
    exists [LoadConfig], [LogError (errorContext None) boom].
    split; reflexivity. }
  split; [ exact Hf | ].
  destruct (proj1 (proj2 (proj2 (proj2
              (buildSnap_steps_ordered_and_short_circuit bundle_fails
                 sample_argv "dist/bundle.js" None None [])))) boom Hf)
    as [Hmanifest Heval].
  split; [ exact Hmanifest | exact (Heval "dist/bundle.js"%string) ].
Defined.

(** ** The handlers and the session *)

Section Session.

Variable w : World.

Lemma on_add_run (argv : YargsArgs) (out path : string) (h : trace) :
  on_add w argv out path h =
  buildSnap w argv out (Some path) (Some ("File added: " ++ path)%string) h.
Proof.
  unfold on_add. apply try_catch_returned with (a := tt).
  apply buildSnap_returns.
Qed.

Lemma on_change_run (argv : YargsArgs) (out path : string) (h : trace) :
  on_change w argv out path h =
  buildSnap w argv out (Some path) (Some ("File changed: " ++ path)%string) h.
Proof.
  unfold on_change. apply try_catch_returned with (a := tt).
  apply buildSnap_returns.
Qed.

(** The [ready] handler: the first build, then the dev server if asked
    for, whose failure is logged. *)
Lemma on_ready_run (argv : YargsArgs) (out : string) (h : trace) :
  on_ready w argv out h =
  (effects (buildSnap w argv out None None) h
   ++ serve_log w argv (h ++ effects (buildSnap w argv out None None) h),
   Returned tt).
Proof.
  unfold on_ready. rewrite try_catch_run.
  unfold outcome at 1, effects at 1 2 3. rewrite !bind_run.
  rewrite buildSnap_returns. unfold serve_log.
  destruct (shouldServe argv).
  - unfold outcome, effects. rewrite call_run. cbn [fst snd].
    destruct (w (h ++ fst (buildSnap w argv out None None h)) Serve);
      cbn [fst snd logError emit]; rewrite <- ?app_assoc; reflexivity.
  - unfold outcome, effects, ret. cbn [fst snd]. reflexivity.
Qed.

Lemma dispatch_returns (s : Session) (ev : WatcherEvent) (h : trace) :
  outcome (dispatch w s ev) h = Returned tt.
Proof.
  unfold outcome. destruct ev; cbn [dispatch].
  - rewrite on_ready_run. reflexivity.
  - rewrite on_add_run. apply buildSnap_returns.
  - rewrite on_change_run. apply buildSnap_returns.
  - reflexivity.
  - reflexivity.
Qed.

Lemma session_step_run (s : Session) (n : Notification) (h : trace) :
  session_step w s n h =
  (match snd (chokidar_emit s n) with
   | Some ev => effects (dispatch w (fst (chokidar_emit s n)) ev) h
   | None => []
   end,
   Returned (fst (chokidar_emit s n))).
Proof.
  unfold session_step. destruct (chokidar_emit s n) as [s' [ev | ]];
    cbn [fst snd]; [ | reflexivity ].
  rewrite bind_run, dispatch_returns. unfold ret, effects at 2, outcome.
  cbn [fst snd]. rewrite app_nil_r. reflexivity.
Qed.

Lemma run_session_cons (s : Session) (n : Notification)
  (ns : list Notification) (h : trace) :
  run_session w s (n :: ns) h =
  (effects (session_step w s n) h
   ++ effects (run_session w (fst (chokidar_emit s n)) ns)
        (h ++ effects (session_step w s n) h),
   outcome (run_session w (fst (chokidar_emit s n)) ns)
     (h ++ effects (session_step w s n) h)).
Proof.
  cbn [run_session]. rewrite bind_run.
  unfold outcome at 1. rewrite session_step_run. cbn [snd]. reflexivity.
Qed.

(** No notification ends the session. *)
Lemma run_session_returns (ns : list Notification) :
  forall s h, exists s', outcome (run_session w s ns) h = Returned s'.
Proof.
  induction ns as [ | n ns IH ]; intros s h.
  - exists s. reflexivity.
  - unfold outcome. rewrite run_session_cons. cbn [snd]. apply IH.
Qed.

(** The watcher only ever changes the [ready] mark of a session. *)
Lemma chokidar_emit_keeps (s : Session) (n : Notification) :
  let s' := fst (chokidar_emit s n) in
  s_argv s' = s_argv s
  /\ s_rootDir s' = s_rootDir s
  /\ s_outfilePath s' = s_outfilePath s
  /\ s_ignored s' = s_ignored s
  /\ (s_ready s = true -> s_ready s' = true).
Proof.
  destruct n; cbn;
    repeat match goal with
           | |- context [if ?b then _ else _] => destruct b eqn:?
           end; cbn; repeat split; auto; congruence.
Qed.

End Session.

(** ** C5 *)

(** C5. A failure during a pipeline run is caught inside [buildSnap]: the
    run returns normally whatever the collaborators do, and the error of the
    call that failed is logged with a text that tells the initial build (no
    path) from a rebuild (quoting the path).  The [add] and [change] handlers
    pass the path of their event, the [ready] handler passes none.  No
    sequence of notifications ends the session. *)
Theorem pipeline_failure_caught_and_logged
  (w : World) (argv : YargsArgs) (outfilePath : string)
  (path logMessage : option string) (h : trace) :
  let d := effects (buildSnap w argv outfilePath path logMessage) h in
  outcome (buildSnap w argv outfilePath path logMessage) h = Returned tt
  /\ (forall c err,
         failed w h d c err -> In (LogError (errorContext path) err) d)
  /\ errorContext None = "Error during initial build."%string
  /\ (forall p,
         errorContext (Some p)
         = ("Error while processing " ++ dquote ++ p ++ dquote ++ ".")%string)
  /\ (forall s p h',
         dispatch w s (Add p) h'
         = buildSnap w (s_argv s) (s_outfilePath s) (Some p)
             (Some ("File added: " ++ p)%string) h')
  /\ (forall s p h',
         dispatch w s (Change p) h'
         = buildSnap w (s_argv s) (s_outfilePath s) (Some p)
             (Some ("File changed: " ++ p)%string) h')
  /\ (forall s h',
         effects (dispatch w s Ready) h'
         = effects (buildSnap w (s_argv s) (s_outfilePath s) None None) h'
           ++ serve_log w (s_argv s)
                (h' ++ effects (buildSnap w (s_argv s) (s_outfilePath s)
                                  None None) h'))
  /\ (forall s ns h',
         exists s', outcome (run_session w s ns) h' = Returned s').
Proof.
  intros d. subst d.
  split; [ apply buildSnap_returns | ].
  split.
  { intros c err Hfailed.
    destruct (buildSnap_failed w argv outfilePath path logMessage h c err Hfailed)
      as (pre & rest & _ & Heff & _).
    rewrite Heff. apply in_or_app. right. apply in_or_app. right.
    right. left. reflexivity. }
  split; [ reflexivity | ].
  split; [ apply errorContext_path | ].
  split; [ intros s p h'; apply on_add_run | ].
  split; [ intros s p h'; apply on_change_run | ].
  split.
  { intros s h'. unfold effects at 1. cbn [dispatch].
    rewrite on_ready_run. reflexivity. }
  intros s ns h'. apply run_session_returns.
Qed.

Lemma pipeline_failure_witness :
  let d := effects (buildSnap manifest_fails sample_argv "dist/bundle.js"
                      (Some "src/helpers.js"%string) None) [] in
  failed manifest_fails [] d ManifestHandler boom
  /\ In (LogError (errorContext (Some "src/helpers.js"%string)) boom) d.
Proof.
  intros d.
  assert (Hf : failed manifest_fails [] d ManifestHandler boom).
  { split; [ reflexivity | ].
    exists [LoadConfig; Bundle "src/index.js" "dist/bundle.js"],
           [LogError (errorContext (Some "src/helpers.js"%string)) boom].
    split; reflexivity. }
  split; [ exact Hf | ].
  exact (proj1 (proj2
           (pipeline_failure_caught_and_logged manifest_fails sample_argv
              "dist/bundle.js" (Some "src/helpers.js"%string) None []))
           ManifestHandler boom Hf).
Defined.

(** ** C10 *)

Lemma calls_are_not_error_lines (argv : YargsArgs) (out : string)
  (l : list effect) :
  (forall x, In x l -> In x (LoadConfig :: steps argv out)) ->
  filter is_log_error l = [].
Proof.
  intros Hsub. apply filter_none. intros x Hx.
  pose proof (steps_are_fallible argv out x (Hsub x Hx)) as Hf.
  destruct x; try discriminate Hf; reflexivity.
Qed.

Lemma info_log_no_error_line (logMessage : option string) :
  filter is_log_error (info_log logMessage) = [].
Proof. destruct logMessage; reflexivity. Qed.

(** One error line for a run with a failing call, none otherwise. *)
Lemma buildSnap_error_count
  (w : World) (argv : YargsArgs) (out : string)
  (path logMessage : option string) (h : trace) :
  let d := effects (buildSnap w argv out path logMessage) h in
  (forall c err, failed w h d c err -> count is_log_error d = 1)
  /\ ((forall c err, ~ failed w h d c err) -> count is_log_error d = 0).
Proof.
  intros d. subst d. unfold count. split.
  - intros c err Hfailed.
    destruct (buildSnap_failed w argv out path logMessage h c err Hfailed)
      as (pre & rest & Hcs & Heff & _).
    rewrite Heff, !filter_app, info_log_no_error_line.
    rewrite (calls_are_not_error_lines argv out pre).
    + destruct Hfailed as [Hfal _].
      destruct c; try discriminate Hfal; reflexivity.
    + intros x Hx. rewrite Hcs. apply in_or_app. left. exact Hx.
  - intros Hnone.
    destruct (buildSnap_cases w argv out path logMessage h)
      as [ (Heff & _) | (pre & c & rest & e & Hcs & Heff & _ & Hfail & _) ].
    + rewrite Heff, filter_app, info_log_no_error_line.
      rewrite (calls_are_not_error_lines argv out); auto.
    + exfalso. apply (Hnone c e). split.
      * apply (steps_are_fallible argv out). rewrite Hcs. apply in_elt.
      * exists (info_log logMessage ++ pre), [LogError (errorContext path) e].
        split; [ rewrite Heff, <- app_assoc; reflexivity | exact Hfail ].
Qed.

(** C10. The promise of [buildSnap] is always resolved, never rejected.  A
    [catch] handler attached to it is therefore never entered, whatever it
    is: the [add] and [change] handlers behave as [buildSnap] alone.  A run in
    which a call fails logs exactly one error, a run without failure logs
    none. *)
Theorem buildSnap_never_rejects
  (w : World) (argv : YargsArgs) (outfilePath : string)
  (path logMessage : option string) (h : trace) :
  outcome (buildSnap w argv outfilePath path logMessage) h = Returned tt
  /\ (forall handler,
         try_catch (buildSnap w argv outfilePath path logMessage) handler h
         = buildSnap w argv outfilePath path logMessage h)
  /\ (forall p,
         on_add w argv outfilePath p h
         = buildSnap w argv outfilePath (Some p)
             (Some ("File added: " ++ p)%string) h)
  /\ (forall p,
         on_change w argv outfilePath p h
         = buildSnap w argv outfilePath (Some p)
             (Some ("File changed: " ++ p)%string) h)
  /\ (forall c err,
         failed w h (effects (buildSnap w argv outfilePath path logMessage) h)
           c err ->
         count is_log_error
           (effects (buildSnap w argv outfilePath path logMessage) h) = 1)
  /\ ((forall c err,
          ~ failed w h
              (effects (buildSnap w argv outfilePath path logMessage) h)
              c err) ->
      count is_log_error
        (effects (buildSnap w argv outfilePath path logMessage) h) = 0)
  /\ (forall p c err,
         failed w h (effects (on_add w argv outfilePath p) h) c err ->
         count is_log_error (effects (on_add w argv outfilePath p) h) = 1)
  /\ (forall p c err,
         failed w h (effects (on_change w argv outfilePath p) h) c err ->
         count is_log_error (effects (on_change w argv outfilePath p) h) = 1).
Proof.
  split; [ apply buildSnap_returns | ].
  split.
  { intros handler. apply try_catch_returned with (a := tt).
    apply buildSnap_returns. }
  split; [ intros p; apply on_add_run | ].
  split; [ intros p; apply on_change_run | ].
  split; [ apply buildSnap_error_count | ].
  split; [ apply buildSnap_error_count | ].
  split.
  - intros p c err. unfold effects. rewrite on_add_run.
    apply buildSnap_error_count.
  - intros p c err. unfold effects. rewrite on_change_run.
    apply buildSnap_error_count.
Qed.

Lemma buildSnap_never_rejects_witness :
  let d := effects (on_change bundle_fails sample_argv "dist/bundle.js"
                      "src/helpers.js") [] in
  failed bundle_fails [] d (Bundle "src/index.js" "dist/bundle.js") boom
  /\ count is_log_error d = 1.
Proof.
  intros d.
  assert (Hf : failed bundle_fails [] d
                 (Bundle "src/index.js" "dist/bundle.js") boom).
  { split; [ reflexivity | ].
    exists [LogInfo "File changed: src/helpers.js"; LoadConfig],
           [LogError (errorContext (Some "src/helpers.js"%string)) boom].
    split; reflexivity. }
  split; [ exact Hf | ].
  exact (proj2 (proj2 (proj2 (proj2 (proj2 (proj2 (proj2
           (buildSnap_never_rejects bundle_fails sample_argv "dist/bundle.js"
              None None [])))))))
           "src/helpers.js"%string _ boom Hf).
Defined.

(** ** The setup phase *)

Section Setup.

Variable w : World.
Variable argv : YargsArgs.

(** A failing call ends a sequence of calls. *)
Lemma run_calls_failed (cs : list effect) (h p q : trace)
  (c : effect) (err : error) :
  effects (run_calls w cs) h = p ++ c :: q ->
  w (h ++ p) c = Some err ->
  q = []
  /\ outcome (run_calls w cs) h = Thrown err
  /\ exists rest, cs = p ++ c :: rest.
Proof.
  intros Heq Hw. unfold effects, outcome in *.
  destruct (run_calls_spec w cs h)
    as [ [Hrun Hok] | (pre & c0 & rest & e & Hcs & Hrun & Hfail & Hok) ];
    rewrite Hrun in *; cbn [fst snd] in *.
  - rewrite (Hok p c q Heq) in Hw. discriminate Hw.
  - destruct (app_eq_cons_split _ _ _ _ _ Heq) as [ [m [Hpre _]] | [m [Hp Hlast]] ].
    + rewrite (Hok p c m Hpre) in Hw. discriminate Hw.
    + destruct m as [ | x m ]; cbn in Hlast.
      * injection Hlast as Hc Hq. subst c0 q. rewrite app_nil_r in Hp. subst p.
        rewrite Hfail in Hw. injection Hw as ->.
        split; [ reflexivity | ]. split; [ reflexivity | ].
        exists rest. exact Hcs.
      * injection Hlast as _ Hnil. destruct m; discriminate Hnil.
Qed.

(** [watch] validates, then subscribes; a failed validation is its
    completion. *)
Lemma watch_run (h : trace) :
  watch w argv h =
  match outcome (run_calls w (validations argv)) h with
  | Returned _ =>
      (effects (run_calls w (validations argv)) h ++ subscription_log argv,
       Returned (new_session argv))
  | Thrown e => (effects (run_calls w (validations argv)) h, Thrown e)
  end.
Proof.
  unfold watch, validations, truthy, subscription_log, new_session,
    outcome, effects.
  destruct (outfileName argv) as [ n | ];
    [ destruct (String.eqb n EmptyString) | ];
    cbn [negb app run_calls];
    unfold bind, call, ret, logInfo, emit;
    repeat
      (rewrite ?app_nil_r;
       match goal with
       | |- context [w ?a ?b] => destruct (w a b)
       end; cbn [app fst snd]);
    rewrite ?app_nil_r; reflexivity.
Qed.

Lemma validations_are_validations :
  forall x, In x (validations argv) -> is_validation x = true.
Proof.
  unfold validations. intros x Hin.
  destruct (outfileName argv) as [ n | ];
    [ destruct (String.eqb n EmptyString) | ];
    in_cases Hin; subst; reflexivity.
Qed.

Lemma subscription_log_infallible :
  forall x, In x (subscription_log argv) -> fallible x = false.
Proof.
  unfold subscription_log. intros x Hin. in_cases Hin; subst; reflexivity.
Qed.

Lemma subscription_log_no_validation :
  filter is_validation (subscription_log argv) = [].
Proof. reflexivity. Qed.

End Setup.

(** ** C7 *)

(** C7. The setup phase validates the output file name (only when one is
    given, and not empty), then the source path, then the output directory
    with creation allowed.  A validation that fails is the last call of
    [watch]: its error is the completion of [watch] and the watcher is never
    reached.  The watcher is reached only when every validation was made and
    passed. *)
Theorem watch_validates_before_subscribing
  (w : World) (argv : YargsArgs) (h : trace) :
  let d := effects (watch w argv) h in
  (exists k, filter is_validation d = firstn k (validations argv))
  /\ (exists name_check,
         validations argv
         = name_check ++ [ValidateFilePath (src argv);
                          ValidateDirPath (dist argv) true]
         /\ (name_check = []
             \/ exists n, outfileName argv = Some n
                          /\ n <> EmptyString
                          /\ name_check = [ValidateOutfileName n]))
  /\ (forall c err,
         failed w h d c err ->
         is_validation c = true
         /\ outcome (watch w argv) h = Thrown err
         /\ (exists pre, d = pre ++ [c])
         /\ forall e, In e d -> is_subscription e = false)
  /\ (forall e,
         In e d -> is_subscription e = true ->
         filter is_validation d = validations argv
         /\ outcome (watch w argv) h = Returned (new_session argv))
  /\ ((forall c err, ~ failed w h d c err) ->
      d = validations argv ++ subscription_log argv
      /\ outcome (watch w argv) h = Returned (new_session argv)).
Proof.
  intros d. subst d. unfold effects, outcome. rewrite watch_run.
  assert (Hsub : forall l e,
             (forall x, In x l -> In x (validations argv)) ->
             In e l -> is_subscription e = false).
  { intros l e Hl He. apply Hl, (validations_are_validations argv) in He.
    destruct e; try discriminate He; reflexivity. }
  destruct (run_calls_spec w (validations argv) h)
    as [ [Hrun Hok] | (pre & c0 & rest & e0 & Hcs & Hrun & Hfail & Hok) ];
    unfold outcome, effects; rewrite Hrun; cbn [fst snd].
  - (* every validation passed *)
    assert (Hfilter :
      filter is_validation (validations argv ++ subscription_log argv)
      = validations argv).
    { rewrite filter_app, subscription_log_no_validation, app_nil_r.
      apply filter_all, validations_are_validations. }
    split; [ | split; [ | split; [ | split ] ] ].
    + exists (List.length (validations argv)). rewrite Hfilter.
      symmetry. apply firstn_all.
    + unfold validations. destruct (outfileName argv) as [ n | ].
      * destruct (String.eqb n EmptyString) eqn:Hn.
        -- exists []. split; [ reflexivity | left; reflexivity ].
        -- exists [ValidateOutfileName n]. split; [ reflexivity | right ].
           exists n. apply String.eqb_neq in Hn. auto.
      * exists []. split; [ reflexivity | left; reflexivity ].
    + intros c err [Hfal (p & q & Heq & Hw)]. exfalso.
      apply (fallible_in_middle [] (validations argv) (subscription_log argv)
               p q c Hfal) in Heq;
        [ | intros x [] | exact (subscription_log_infallible argv) ].
      destruct Heq as (p' & q' & -> & _ & Heq). cbn [app] in Hw.
      rewrite (Hok p' c q' Heq) in Hw. discriminate Hw.
    + intros e _ _. split; [ exact Hfilter | reflexivity ].
    + intros _. split; reflexivity.
  - (* the validation [c0] failed *)
    assert (Hin : forall x, In x (pre ++ [c0]) -> In x (validations argv)).
    { intros x Hx. rewrite Hcs. apply in_app_or in Hx. apply in_or_app.
      destruct Hx as [ Hx | [ <- | [] ] ]; [ left; exact Hx | right; left; reflexivity ]. }
    split; [ | split; [ | split; [ | split ] ] ].
    + exists (List.length (pre ++ [c0])).
      rewrite filter_all.
      * rewrite Hcs. change (c0 :: rest) with ([c0] ++ rest).
        rewrite app_assoc. symmetry. apply firstn_prefix.
      * intros x Hx. apply (validations_are_validations argv), Hin, Hx.
    + unfold validations. destruct (outfileName argv) as [ n | ].
      * destruct (String.eqb n EmptyString) eqn:Hn.
        -- exists []. split; [ reflexivity | left; reflexivity ].
        -- exists [ValidateOutfileName n]. split; [ reflexivity | right ].
           exists n. apply String.eqb_neq in Hn. auto.
      * exists []. split; [ reflexivity | left; reflexivity ].
    + intros c err [Hfal (p & q & Heq & Hw)].
      destruct (app_eq_cons_split _ _ _ _ _ Heq) as [ [m [Hpre _]] | [m [Hp Hlast]] ].
      * rewrite (Hok p c m Hpre) in Hw. discriminate Hw.
      * destruct m as [ | x m ]; cbn in Hlast.
        -- injection Hlast as Hc Hq. subst c0 q. rewrite app_nil_r in Hp.
           subst p. rewrite Hfail in Hw. injection Hw as ->.
           split; [ apply (validations_are_validations argv), Hin, in_elt | ].
           split; [ reflexivity | ].
           split; [ exists pre; reflexivity | ].
           intros e He. exact (Hsub _ e Hin He).
        -- injection Hlast as _ Hnil. destruct m; discriminate Hnil.
    + intros e He Hs. rewrite (Hsub _ e Hin He) in Hs. discriminate Hs.
    + intros Hnone. exfalso. apply (Hnone c0 e0). split.
      * pose proof (validations_are_validations argv c0
                      (Hin c0 (in_elt c0 pre []))) as Hv.
        destruct c0; try discriminate Hv; reflexivity.
      * exists pre, []. split; [ reflexivity | exact Hfail ].
Qed.

Lemma watch_validates_witness :
  let d := effects (watch source_missing sample_argv) [] in
  failed source_missing [] d (ValidateFilePath "src/index.js") boom
  /\ outcome (watch source_missing sample_argv) [] = Thrown boom
  /\ d = [ValidateFilePath "src/index.js"]
  /\ is_subscription (ValidateFilePath "src/index.js") = false.
Proof.
  intros d.
  assert (Hf : failed source_missing [] d
                 (ValidateFilePath "src/index.js") boom).
  { split; [ reflexivity | ]. exists [], []. split; reflexivity. }
  split; [ exact Hf | ].
  pose proof (proj1 (proj2 (proj2
                (watch_validates_before_subscribing source_missing
                   sample_argv [])))
                (ValidateFilePath "src/index.js") boom Hf)
    as (_ & Hout & _ & Hnosub).
  split; [ exact Hout | ].
  split; [ reflexivity | ].
  apply Hnosub. left. reflexivity.
Defined.

(** ** C3 *)

(** The values computed by [watch] stay as they are for the whole session. *)
Lemma run_session_keeps (w : World) (ns : list Notification) :
  forall s h s',
    outcome (run_session w s ns) h = Returned s' ->
    s_argv s' = s_argv s
    /\ s_rootDir s' = s_rootDir s
    /\ s_outfilePath s' = s_outfilePath s
    /\ s_ignored s' = s_ignored s.
Proof.
  induction ns as [ | n ns IH ]; intros s h s' Hout.
  - injection Hout as <-. auto.
  - unfold outcome in Hout. rewrite run_session_cons in Hout. cbn [snd] in Hout.
    destruct (IH _ _ _ Hout) as (Ha & Hr & Ho & Hi).
    destruct (chokidar_emit_keeps s n) as (Ha' & Hr' & Ho' & Hi' & _).
    cbv zeta in Ha', Hr', Ho', Hi'.
    repeat split; congruence.
Qed.

(** C3. For a source path with a separator, [rootDir] is the source path up
    to and including its last separator; for a source path without one it is
    [.]; every source path is of one of the two kinds.  [watch] stores that
    value in the session it returns and no notification changes it. *)
Theorem rootDir_is_parent_directory (source : string) :
  (forall dir file,
      source = (dir ++ "/" ++ file)%string -> no_separator file ->
      rootDir source = (dir ++ "/")%string)
  /\ (no_separator source -> rootDir source = "."%string)
  /\ (no_separator source
      \/ exists dir file,
           source = (dir ++ "/" ++ file)%string /\ no_separator file)
  /\ (forall w argv h s,
         src argv = source ->
         outcome (watch w argv) h = Returned s ->
         s_rootDir s = rootDir source)
  /\ (forall w s ns h s',
         s_rootDir s = rootDir source ->
         outcome (run_session w s ns) h = Returned s' ->
         s_rootDir s' = rootDir source).
Proof.
  split; [ | split; [ | split; [ | split ] ] ].
  - intros dir file -> Hno. apply rootDir_with_separator, Hno.
  - apply rootDir_without_separator.
  - apply separator_cases.
  - intros w argv h s Hsrc Hout. unfold outcome in Hout.
    rewrite watch_run in Hout.
    destruct (outcome (run_calls w (validations argv)) h); cbn [snd] in Hout.
    + injection Hout as <-. cbn [s_rootDir new_session]. now rewrite Hsrc.
    + discriminate Hout.
  - intros w s ns h s' Hroot Hout.
    destruct (run_session_keeps w ns s h s' Hout) as (_ & Hr & _).
    congruence.
Qed.

Lemma rootDir_witness :
  rootDir "src/index.js" = "src/"%string
  /\ rootDir "index.js" = "."%string
  /\ outcome (run_session bundle_fails (new_session sample_argv)
                [ScanComplete; FileChanged "src/helpers.js"]) []
     = Returned (active_session sample_argv)
  /\ s_rootDir (active_session sample_argv) = rootDir "src/index.js".
Proof.
  assert (Hrun :
    outcome (run_session bundle_fails (new_session sample_argv)
               [ScanComplete; FileChanged "src/helpers.js"]) []
    = Returned (active_session sample_argv)) by reflexivity.
  split; [ | split; [ | split ] ].
  - apply (proj1 (rootDir_is_parent_directory "src/index.js")
             "src"%string "index.js"%string).
    + reflexivity.
    + intros a b Heq.
      apply (f_equal (fun s => JsString.includes s "/")) in Heq.
      rewrite separator_found in Heq. discriminate Heq.
  - apply (proj1 (proj2 (rootDir_is_parent_directory "index.js"))).
    intros a b Heq.
    apply (f_equal (fun s => JsString.includes s "/")) in Heq.
    rewrite separator_found in Heq. discriminate Heq.
  - exact Hrun.
  - apply (proj2 (proj2 (proj2 (proj2
             (rootDir_is_parent_directory "src/index.js"))))
             bundle_fails (new_session sample_argv)
             [ScanComplete; FileChanged "src/helpers.js"] []
             (active_session sample_argv));
      [ reflexivity | exact Hrun ].
Defined.

(** ** C9 *)

(** C9. A removal that the watcher reports for a path that is not ignored
    is announced and nothing else happens; whether the path is ignored or
    not, no pipeline step is made and the configuration is not loaded. *)
Theorem removed_file_is_only_announced
  (w : World) (s : Session) (p : string) (h : trace) :
  (isIgnored (s_ignored s) p = false ->
   session_step w s (FileRemoved p) h
   = ([LogInfo ("File removed: " ++ p)%string], Returned s))
  /\ (forall e,
         In e (effects (session_step w s (FileRemoved p)) h) ->
         is_pipeline_step e = false /\ e <> LoadConfig).
Proof.
  split.
  - intros Hign. rewrite session_step_run. cbn [chokidar_emit].
    rewrite Hign. reflexivity.
  - intros e. unfold effects. rewrite session_step_run. cbn [chokidar_emit fst].
    destruct (isIgnored (s_ignored s) p); cbn [snd fst]; intros Hin.
    + destruct Hin.
    + destruct Hin as [ <- | [] ]. split; [ reflexivity | discriminate ].
Qed.

Lemma removed_file_witness :
  isIgnored (s_ignored (active_session sample_argv)) "src/helpers.js" = false
  /\ session_step all_fine (active_session sample_argv)
       (FileRemoved "src/helpers.js") []
     = ([LogInfo "File removed: src/helpers.js"],
        Returned (active_session sample_argv)).
Proof.
  split; [ reflexivity | ].
  apply (proj1 (removed_file_is_only_announced all_fine
                  (active_session sample_argv) "src/helpers.js" [])).
  reflexivity.
Defined.

(** ** C2 *)

(** C2, as stated, fails: with the serve flag set and a bundler that fails
    during the first build, the [ready] handler still starts the dev
    server. *)
Lemma serve_started_after_failed_first_build :
  shouldServe sample_argv = true
  /\ failed bundle_fails []
       (effects (on_ready bundle_fails sample_argv "dist/bundle.js") [])
       (Bundle "src/index.js" "dist/bundle.js") boom
  /\ effects (on_ready bundle_fails sample_argv "dist/bundle.js") []
     = [ LoadConfig;
         Bundle "src/index.js" "dist/bundle.js";
         LogError "Error during initial build." boom;
         Serve ]
  /\ In Serve (effects (on_ready bundle_fails sample_argv "dist/bundle.js") []).
Proof.
  split; [ reflexivity | ].
  split.
  { split; [ reflexivity | ].
    exists [LoadConfig], [LogError "Error during initial build." boom; Serve].
    split; reflexivity. }
  split; [ reflexivity | ].
  right. right. right. left. reflexivity.
Qed.

Lemma buildSnap_effects_kind
  (w : World) (argv : YargsArgs) (out : string)
  (path logMessage : option string) (h : trace) :
  forall e,
    In e (effects (buildSnap w argv out path logMessage) h) ->
    is_build_effect e = true.
Proof.
  assert (Hcalls : forall x,
             In x (LoadConfig :: steps argv out) -> is_build_effect x = true).
  { intros x [ <- | Hx ]; [ reflexivity | ].
    apply steps_are_pipeline_steps in Hx.
    destruct x; try discriminate Hx; reflexivity. }
  intros e Hin.
  destruct (buildSnap_cases w argv out path logMessage h)
    as [ (Heff & _) | (pre & c & rest & e0 & Hcs & Heff & _) ];
    rewrite Heff in Hin; apply in_app_or in Hin;
    destruct Hin as [ Hin | Hin ].
  - destruct logMessage; cbn [info_log] in Hin; in_cases Hin; subst;
      reflexivity.
  - apply Hcalls, Hin.
  - destruct logMessage; cbn [info_log] in Hin; in_cases Hin; subst;
      reflexivity.
  - apply in_app_or in Hin. destruct Hin as [ Hin | Hin ].
    + apply Hcalls. rewrite Hcs. apply in_or_app. left. exact Hin.
    + destruct Hin as [ <- | [ <- | [] ] ]; [ | reflexivity ].
      apply Hcalls. rewrite Hcs. apply in_elt.
Qed.

Lemma buildSnap_never_serves
  (w : World) (argv : YargsArgs) (out : string)
  (path logMessage : option string) (h : trace) :
  ~ In Serve (effects (buildSnap w argv out path logMessage) h).
Proof.
  intros Hin. apply buildSnap_effects_kind in Hin. discriminate Hin.
Qed.

(** C2, amended. With the serve flag set, the [ready] handler starts the dev
    server right after the first run of [buildSnap], which never starts it
    itself, and it does so whether or not a call of that run failed; without
    the flag the server is not started. *)
Theorem on_ready_serves_after_first_build
  (w : World) (argv : YargsArgs) (outfilePath : string) (h : trace) :
  let build := effects (buildSnap w argv outfilePath None None) h in
  let d := effects (on_ready w argv outfilePath) h in
  ~ In Serve build
  /\ (shouldServe argv = true ->
      exists tail, d = build ++ Serve :: tail /\ ~ In Serve tail)
  /\ (shouldServe argv = true ->
      forall c err, failed w h build c err -> In Serve d)
  /\ (shouldServe argv = false -> d = build).
Proof.
  intros build d. subst build d.
  split; [ apply buildSnap_never_serves | ].
  change (effects (on_ready w argv outfilePath) h)
    with (fst (on_ready w argv outfilePath h)).
  rewrite on_ready_run. cbn [fst]. unfold serve_log.
  split; [ | split ]; intros Hflag; rewrite Hflag.
  - eexists. split; [ reflexivity | ].
    destruct (w _ Serve); intros Hin; in_cases Hin; discriminate Hin.
  - intros c err _. apply in_or_app. right. left. reflexivity.
  - apply app_nil_r.
Qed.

Lemma on_ready_serves_witness :
  shouldServe sample_argv = true
  /\ exists tail,
       effects (on_ready manifest_fails sample_argv "dist/bundle.js") []
       = effects (buildSnap manifest_fails sample_argv "dist/bundle.js"
                    None None) []
         ++ Serve :: tail
       /\ ~ In Serve tail.
Proof.
  split; [ reflexivity | ].
  apply (proj1 (proj2 (on_ready_serves_after_first_build manifest_fails
                         sample_argv "dist/bundle.js" []))).
  reflexivity.
Defined.

(** ** C8 *)

Section DevServer.

Variable w : World.

Lemma build_effect_not_serve (l : list effect) :
  (forall e, In e l -> is_build_effect e = true) ->
  count is_serve l = 0 /\ ~ In Serve l.
Proof.
  intros Hl. split.
  - unfold count. rewrite filter_none; [ reflexivity | ].
    intros e He. apply Hl in He. destruct e; try discriminate He; reflexivity.
  - intros Hin. apply Hl in Hin. discriminate Hin.
Qed.

(** A notification either is the end of the first scan of a session that was
    waiting for it, and then the [ready] handler runs, or it adds nothing but
    what a pipeline run does and leaves the [ready] mark as it is. *)
Lemma session_step_cases (s : Session) (n : Notification) (h : trace) :
  (n = ScanComplete
   /\ s_ready s = false
   /\ s_ready (fst (chokidar_emit s n)) = true
   /\ effects (session_step w s n) h
      = effects (buildSnap w (s_argv s) (s_outfilePath s) None None) h
        ++ serve_log w (s_argv s)
             (h ++ effects (buildSnap w (s_argv s) (s_outfilePath s)
                              None None) h))
  \/ (s_ready (fst (chokidar_emit s n)) = s_ready s
      /\ forall e,
          In e (effects (session_step w s n) h) -> is_build_effect e = true).
Proof.
  unfold effects at 1 4. rewrite session_step_run. cbn [fst].
  destruct n as [ | p | p | p | err ]; cbn [chokidar_emit].
  - destruct (s_ready s) eqn:Hready; cbn [fst snd].
    + right. split; [ exact Hready | intros e [] ].
    + left. repeat split. unfold effects at 1. cbn [dispatch s_argv s_outfilePath].
      rewrite on_ready_run. reflexivity.
  - right. destruct (isIgnored (s_ignored s) p); cbn [fst snd];
      [ split; [ reflexivity | intros e [] ] | ].
    destruct (s_ready s) eqn:Hready; cbn [fst snd];
      [ | split; [ exact Hready | intros e [] ] ].
    split; [ exact Hready | ]. unfold effects. cbn [dispatch].
    rewrite on_add_run. apply buildSnap_effects_kind.
  - right. destruct (isIgnored (s_ignored s) p); cbn [fst snd];
      [ split; [ reflexivity | intros e [] ] | ].
    split; [ reflexivity | ]. unfold effects. cbn [dispatch].
    rewrite on_change_run. apply buildSnap_effects_kind.
  - right. destruct (isIgnored (s_ignored s) p); cbn [fst snd];
      [ split; [ reflexivity | intros e [] ] | ].
    split; [ reflexivity | ]. intros e [ <- | [] ]. reflexivity.
  - right. cbn [fst snd]. split; [ reflexivity | ].
    intros e [ <- | [] ]. reflexivity.
Qed.

Lemma serve_log_count (argv : YargsArgs) (h : trace) :
  count is_serve (serve_log w argv h) = if shouldServe argv then 1 else 0.
Proof.
  unfold serve_log, count.
  destruct (shouldServe argv); [ | reflexivity ].
  destruct (w h Serve); reflexivity.
Qed.

Lemma count_app (p : effect -> bool) (l1 l2 : list effect) :
  count p (l1 ++ l2) = count p l1 + count p l2.
Proof. unfold count. rewrite filter_app. apply length_app. Qed.

(** The dev server is started at most once, and only by a session that was
    still waiting for the end of its first scan. *)
Lemma run_session_serve_count (ns : list Notification) :
  forall s h,
    count is_serve (effects (run_session w s ns) h)
    <= (if s_ready s then 0 else if shouldServe (s_argv s) then 1 else 0).
Proof.
  induction ns as [ | n ns IH ]; intros s h.
  - cbn. lia.
  - unfold effects at 1. rewrite run_session_cons. cbn [fst].
    rewrite count_app.
    specialize (IH (fst (chokidar_emit s n))
                  (h ++ effects (session_step w s n) h)).
    destruct (chokidar_emit_keeps s n) as (Hargv & _). cbv zeta in Hargv.
    rewrite Hargv in IH.
    destruct (session_step_cases s n h)
      as [ (_ & Hready & Hready' & Heff) | (Hready' & Hkind) ].
    + rewrite Hready', Heff in IH.
      rewrite Hready, Heff, count_app, serve_log_count.
      destruct (build_effect_not_serve _
                  (buildSnap_effects_kind w (s_argv s) (s_outfilePath s)
                     None None h)) as [-> _].
      cbv iota in IH. destruct (shouldServe (s_argv s)); cbv iota; lia.
    + rewrite Hready' in IH.
      destruct (build_effect_not_serve _ Hkind) as [-> _].
      destruct (s_ready s), (shouldServe (s_argv s)); cbv iota in *; lia.
Qed.

(** A start of the dev server comes right after the first build. *)
Lemma run_session_serve_position (ns : list Notification) :
  forall s h pre post,
    effects (run_session w s ns) h = pre ++ Serve :: post ->
    exists before,
      pre = before
            ++ effects (buildSnap w (s_argv s) (s_outfilePath s) None None)
                 (h ++ before)
      /\ (w (h ++ pre) Serve = None
          \/ exists err after,
               w (h ++ pre) Serve = Some err
               /\ post = LogError "Error during initial build." err :: after).
Proof.
  induction ns as [ | n ns IH ]; intros s h pre post Heq.
  - destruct pre; discriminate Heq.
  - unfold effects at 1 in Heq. rewrite run_session_cons in Heq.
    cbn [fst] in Heq.
    destruct (chokidar_emit_keeps s n) as (Hargv & _ & Hout & _).
    cbv zeta in Hargv, Hout.
    destruct (app_eq_cons_split _ _ _ _ _ Heq)
      as [ (m & Hstep & Hpost) | (m & Hpre & Hrest) ].
    + (* the server is started by this very notification *)
      destruct (session_step_cases s n h)
        as [ (_ & _ & _ & Heff) | (_ & Hkind) ].
      * rewrite Heff in Hstep.
        destruct (app_eq_cons_split _ _ _ _ _ Hstep)
          as [ (m' & Hbuild & _) | (m' & Hpre & Hserve) ].
        -- exfalso.
           apply (buildSnap_never_serves w (s_argv s) (s_outfilePath s)
                    None None h).
           rewrite Hbuild. apply in_elt.
        -- unfold serve_log in Hserve.
           destruct (shouldServe (s_argv s));
             [ | destruct m'; discriminate Hserve ].
           destruct m' as [ | x m' ]; cbn [app] in Hserve.
           ++ rewrite app_nil_r in Hpre. subst pre.
              exists []. rewrite app_nil_r. split; [ reflexivity | ].
              injection Hserve as Hm.
              destruct (w (h ++ effects (buildSnap w (s_argv s)
                                           (s_outfilePath s) None None) h)
                          Serve) as [ err | ].
              ** right. exists err, (effects (run_session w
                                       (fst (chokidar_emit s n)) ns)
                                       (h ++ effects (session_step w s n) h)).
                 split; [ reflexivity | ]. subst m post. reflexivity.
              ** left. reflexivity.
           ++ exfalso. injection Hserve as _ Htail.
              destruct (w (h ++ effects (buildSnap w (s_argv s)
                                           (s_outfilePath s) None None) h)
                          Serve);
                enum_cut Htail; discriminate.
      * exfalso. destruct (build_effect_not_serve _ Hkind) as [_ Hno].
        apply Hno. rewrite Hstep. apply in_elt.
    + (* the server is started later *)
      destruct (IH _ _ _ _ Hrest) as (before & Hm & Hlog).
      rewrite Hargv, Hout in Hm.
      exists (effects (session_step w s n) h ++ before).
      rewrite Hpre. rewrite !app_assoc in *. split.
      * rewrite Hm at 1. rewrite !app_assoc. reflexivity.
      * exact Hlog.
Qed.

End DevServer.

(** C8. Over any sequence of notifications the dev server is started at most
    once; not at all when the serve flag is not set, nor once [ready] has been
    emitted; exactly once when the flag is set and the session sees the end
    of its first scan.  Every start of the server comes right after a run of
    [buildSnap] without a path, which is the run of the [ready] handler.  A
    failure to start the server is logged, and the session goes on. *)
Theorem dev_server_started_at_most_once
  (w : World) (s : Session) (ns : list Notification) (h : trace) :
  let d := effects (run_session w s ns) h in
  count is_serve d <= 1
  /\ (shouldServe (s_argv s) = false -> count is_serve d = 0)
  /\ (s_ready s = true -> count is_serve d = 0)
  /\ (shouldServe (s_argv s) = true -> s_ready s = false ->
      count is_serve (effects (run_session w s (ScanComplete :: ns)) h) = 1)
  /\ (forall pre post,
         d = pre ++ Serve :: post ->
         exists before,
           pre = before
                 ++ effects (buildSnap w (s_argv s) (s_outfilePath s)
                               None None) (h ++ before))
  /\ (forall err,
         failed w h d Serve err ->
         In (LogError "Error during initial build." err) d)
  /\ (exists s', outcome (run_session w s ns) h = Returned s').
Proof.
  intros d. subst d.
  pose proof (run_session_serve_count w ns s h) as Hcount.
  split; [ | split; [ | split; [ | split; [ | split; [ | split ] ] ] ] ].
  - destruct (s_ready s), (shouldServe (s_argv s)); lia.
  - intros Hflag. rewrite Hflag in Hcount. destruct (s_ready s); lia.
  - intros Hready. rewrite Hready in Hcount. lia.
  - intros Hflag Hready.
    unfold effects at 1. rewrite run_session_cons. cbn [fst].
    rewrite count_app.
    destruct (session_step_cases w s ScanComplete h)
      as [ (_ & _ & Hready' & Heff) | (Hready' & _) ].
    + pose proof (run_session_serve_count w ns
                    (fst (chokidar_emit s ScanComplete))
                    (h ++ effects (session_step w s ScanComplete) h)) as Hrest.
      rewrite Hready' in Hrest.
      rewrite Heff at 1. rewrite count_app, serve_log_count, Hflag.
      destruct (build_effect_not_serve _
                  (buildSnap_effects_kind w (s_argv s) (s_outfilePath s)
                     None None h)) as [-> _].
      lia.
    + exfalso. cbn [chokidar_emit] in Hready'. rewrite Hready in Hready'.
      cbn [fst s_ready] in Hready'. discriminate Hready'.
  - intros pre post Heq.
    destruct (run_session_serve_position w ns s h pre post Heq)
      as (before & Hpre & _).
    exists before. exact Hpre.
  - intros err [_ (pre & post & Heq & Hw)].
    destruct (run_session_serve_position w ns s h pre post Heq)
      as (_ & _ & [ Hnone | (err' & after & Hsome & Hpost) ]).
    + rewrite Hnone in Hw. discriminate Hw.
    + rewrite Hsome in Hw. injection Hw as ->.
      rewrite Heq, Hpost. apply in_or_app. right. right. left. reflexivity.
  - apply run_session_returns.
Qed.

Lemma dev_server_witness :
  let ns := [ScanComplete; FileChanged "src/helpers.js"; ScanComplete] in
  let d := effects (run_session serve_fails (new_session sample_argv) ns) [] in
  shouldServe (s_argv (new_session sample_argv)) = true
  /\ s_ready (new_session sample_argv) = false
  /\ failed serve_fails [] d Serve boom
  /\ count is_serve
       (effects (run_session serve_fails (new_session sample_argv)
                   (ScanComplete :: ns)) []) = 1
  /\ In (LogError "Error during initial build." boom) d.
Proof.
  intros ns d.
  assert (Hf : failed serve_fails [] d Serve boom).
  { split; [ reflexivity | ].
    exists [LoadConfig; Bundle "src/index.js" "dist/bundle.js";
            ManifestHandler; EvalHandler "dist/bundle.js"].
    eexists. split; reflexivity. }
  pose proof (dev_server_started_at_most_once serve_fails
                (new_session sample_argv) ns [])
    as (_ & _ & _ & Honce & _ & Hlogged & _).
  split; [ reflexivity | ].
  split; [ reflexivity | ].
  split; [ exact Hf | ].
  split; [ exact (Honce eq_refl eq_refl) | exact (Hlogged boom Hf) ].
Defined.

(** ** Globs: general facts *)

Section Globs.

Local Open Scope string_scope.

Lemma split_not_nil (s : string) : Glob.split s <> [].
Proof.
  destruct s as [ | c s ]; cbn; [ discriminate | ].
  destruct (Ascii.eqb c Glob.slash); [ discriminate | ].
  destruct (Glob.split s); discriminate.
Qed.

(** Cutting a path written with a separator cuts both sides. *)
Lemma split_app (a b : string) :
  Glob.split (a ++ "/" ++ b) = (Glob.split a ++ Glob.split b)%list.
Proof.
  induction a as [ | c a IH ].
  - reflexivity.
  - cbn [append Glob.split] in IH |- *. rewrite IH.
    destruct (Ascii.eqb c Glob.slash); [ reflexivity | ].
    pose proof (split_not_nil a) as Hne.
    destruct (Glob.split a); [ contradiction | reflexivity ].
Qed.

Lemma wild_match_star (p s : string) :
  Glob.wild_match (String Glob.star p) s
  = Glob.wild_match p s
    || match s with
       | EmptyString => false
       | String _ s' => Glob.wild_match (String Glob.star p) s'
       end.
Proof. destruct s; reflexivity. Qed.

Lemma wild_match_refl (p : string) : Glob.wild_match p p = true.
Proof.
  induction p as [ | c p IH ]; [ reflexivity | ].
  destruct (Ascii.eqb c Glob.star) eqn:Hc.
  - apply Ascii.eqb_eq in Hc. subst c.
    rewrite wild_match_star, wild_match_star, IH.
    rewrite orb_true_r. reflexivity.
  - cbn [Glob.wild_match]. rewrite Hc, Ascii.eqb_refl, IH. reflexivity.
Qed.

(** [*lit] accepts every segment that ends with [lit]. *)
Lemma wild_match_suffix (lit stem : string) :
  Glob.wild_match (String Glob.star lit) (stem ++ lit) = true.
Proof.
  induction stem as [ | c stem IH ].
  - cbn [append]. rewrite wild_match_star, wild_match_refl. reflexivity.
  - cbn [append]. rewrite wild_match_star, IH. apply orb_true_r.
Qed.

Lemma glob_match_globstar (pat path : list string) :
  Glob.glob_match (Glob.globstar :: pat) path
  = Glob.glob_match pat path
    || match path with
       | [] => false
       | _ :: path' => Glob.glob_match (Glob.globstar :: pat) path'
       end.
Proof. destruct path; reflexivity. Qed.

(** A leading [**] lets any directories come first. *)
Lemma glob_match_skip (pat parents rest : list string) :
  Glob.glob_match pat rest = true ->
  Glob.glob_match (Glob.globstar :: pat) (parents ++ rest) = true.
Proof.
  intros Hrest. induction parents as [ | x parents IH ]; cbn [app].
  - rewrite glob_match_globstar, Hrest. reflexivity.
  - rewrite glob_match_globstar, IH. apply orb_true_r.
Qed.

(** A trailing [**] accepts whatever is left, nothing included. *)
Lemma glob_match_rest (rest : list string) :
  Glob.glob_match [Glob.globstar] rest = true.
Proof.
  induction rest as [ | x rest IH ].
  - reflexivity.
  - rewrite glob_match_globstar, IH. apply orb_true_r.
Qed.

(** Segments taken as a pattern accept themselves. *)
Lemma glob_match_self (segs rest : list string) :
  Glob.glob_match (segs ++ [Glob.globstar]) (segs ++ rest) = true.
Proof.
  induction segs as [ | d segs IH ]; cbn [app].
  - apply glob_match_rest.
  - destruct (String.eqb d Glob.globstar) eqn:Hd.
    + apply String.eqb_eq in Hd. subst d.
      rewrite glob_match_globstar, glob_match_globstar, IH.
      rewrite orb_true_r. reflexivity.
    + cbn [Glob.glob_match]. rewrite Hd, wild_match_refl, IH. reflexivity.
Qed.

(** [**], segments, [**] accepts the paths that go through the segments. *)
Lemma glob_match_through (segs : list string) (path : string) :
  goes_through segs path ->
  Glob.glob_match (Glob.globstar :: segs ++ [Glob.globstar])
    (Glob.split path) = true.
Proof.
  intros (parents & rest & Hpath). rewrite Hpath.
  apply glob_match_skip, glob_match_self.
Qed.

(** [**], [*suffix] accepts the files whose name ends with [suffix]. *)
Lemma glob_match_file_name (suffix path : string) :
  file_name_ends_with suffix path ->
  Glob.glob_match [Glob.globstar; String Glob.star suffix]
    (Glob.split path) = true.
Proof.
  intros (parents & stem & Hpath). rewrite Hpath.
  apply glob_match_skip.
  cbn [Glob.glob_match].
  change (String.eqb (String Glob.star suffix) Glob.globstar)
    with (String.eqb suffix "*").
  destruct (String.eqb suffix "*") eqn:Hs.
  - apply String.eqb_eq in Hs. subst suffix.
    change (String Glob.star "*") with Glob.globstar.
    apply (glob_match_rest [stem ++ "*"]).
  - rewrite wild_match_suffix. reflexivity.
Qed.

Lemma has_segment_goes_through (seg path : string) :
  has_segment seg path -> goes_through [seg] path.
Proof.
  intros Hin. apply in_split in Hin. destruct Hin as (l1 & l2 & Hpath).
  exists l1, l2. exact Hpath.
Qed.

End Globs.

(** ** Normalised paths *)

Section Normalised.

Local Open Scope string_scope.

Lemma literal_segment_kept (seg : string) :
  Glob.literal_segment seg = true ->
  NodePath.skipped seg = false /\ String.eqb seg ".." = false.
Proof.
  unfold Glob.literal_segment, NodePath.skipped. intros H.
  apply andb_prop in H. destruct H as [H _].
  apply andb_prop in H. destruct H as [H H3].
  apply andb_prop in H. destruct H as [H1 H2].
  apply negb_true_iff in H1, H2, H3. rewrite H1, H2, H3. split; reflexivity.
Qed.

(** Normalising a directory path without [..] drops its empty segments and
    its [.] segments and keeps the others. *)
Lemma normalize_onto_plain (above : bool) (segs : list string) :
  forall stack tail,
    forallb (fun seg => NodePath.skipped seg || Glob.literal_segment seg)
      segs = true ->
    NodePath.normalize_onto above stack (segs ++ tail)%list
    = NodePath.normalize_onto above
        (rev (filter (fun seg => negb (NodePath.skipped seg)) segs) ++ stack)%list
        tail.
Proof.
  induction segs as [ | seg segs IH ]; intros stack tail Hplain.
  - reflexivity.
  - cbn [forallb] in Hplain. apply andb_prop in Hplain.
    destruct Hplain as [Hseg Hplain].
    cbn [app NodePath.normalize_onto filter].
    destruct (NodePath.skipped seg) eqn:Hskip; cbn [negb].
    + apply IH, Hplain.
    + cbn [orb] in Hseg.
      destruct (literal_segment_kept seg Hseg) as [_ Hparent].
      rewrite Hparent, (IH _ _ Hplain). cbn [rev].
      rewrite <- app_assoc. reflexivity.
Qed.



Lemma dir_segments_literal (segs : list string) :
  forallb (fun seg => NodePath.skipped seg || Glob.literal_segment seg)
    segs = true ->
  forallb Glob.literal_segment
    (filter (fun seg => negb (NodePath.skipped seg)) segs) = true.
Proof.
  induction segs as [ | seg segs IH ]; intros Hplain; [ reflexivity | ].
  cbn [forallb] in Hplain. apply andb_prop in Hplain.
  destruct Hplain as [Hseg Hplain]. cbn [filter].
  destruct (NodePath.skipped seg); cbn [negb orb] in *.
  - apply IH, Hplain.
  - cbn [forallb]. rewrite Hseg, (IH Hplain). reflexivity.
Qed.

(** The glob made from the output directory, as the watcher matches it. *)
Lemma normalizeIgnored_dist (d : string) :
  NodePath.plain_dir d = true ->
  normalizeIgnored ("**/" ++ d ++ "/**")
  = (Glob.globstar :: NodePath.dir_segments d ++ [Glob.globstar])%list.
Proof.
  intros Hplain. unfold normalizeIgnored, NodePath.normalize_relative.
  change ("**/" ++ d ++ "/**") with ("**" ++ "/" ++ (d ++ "/" ++ "**")).
  rewrite !split_app.
  change (Glob.split "**") with [Glob.globstar]. cbn [app].
  change (NodePath.normalize_onto true []
            (Glob.globstar :: Glob.split d ++ [Glob.globstar])%list)
    with (NodePath.normalize_onto true [Glob.globstar]
            (Glob.split d ++ [Glob.globstar])%list).
  rewrite (normalize_onto_plain true (Glob.split d) _ _ Hplain).
  fold (NodePath.dir_segments d).
  change (NodePath.normalize_onto true
            (rev (NodePath.dir_segments d) ++ [Glob.globstar])%list
            [Glob.globstar])
    with (rev (Glob.globstar
               :: (rev (NodePath.dir_segments d) ++ [Glob.globstar])%list)).
  cbn [rev]. rewrite rev_app_distr, rev_involutive. reflexivity.
Qed.



End Normalised.

(** ** C6 *)

(** The matchers of [ignored], one by one, each glob in the form in which
    the watcher matches it. *)
Lemma isIgnored_cases (d p : string) :
  isIgnored (ignored d) p
  = Glob.glob_match ["**"; "node_modules"; "**"]%string (Glob.split p)
    || (Glob.glob_match (normalizeIgnored ("**/" ++ d ++ "/**"))
          (Glob.split p)
        || (Glob.glob_match ["**"; "test"; "**"]%string (Glob.split p)
            || (Glob.glob_match ["**"; "tests"; "**"]%string (Glob.split p)
                || (Glob.glob_match ["**"; "*.test.js"]%string (Glob.split p)
                    || (Glob.glob_match ["**"; "*.test.ts"]%string
                          (Glob.split p)
                        || (negb (String.eqb p ".")
                            && JsString.startsWith p "."
                            || false)))))).
Proof. reflexivity. Qed.

(** What puts a path on the ignore list, for an output directory without
    [..] and glob characters. *)
Lemma isIgnored_when (d p : string) :
  has_segment "node_modules" p
  \/ (NodePath.plain_dir d = true /\ goes_through (NodePath.dir_segments d) p)
  \/ has_segment "test" p
  \/ has_segment "tests" p
  \/ file_name_ends_with ".test.js" p
  \/ file_name_ends_with ".test.ts" p
  \/ (p <> "."%string /\ JsString.startsWith p "." = true) ->
  isIgnored (ignored d) p = true.
Proof.
  rewrite isIgnored_cases.
  intros [ H | [ [Hplain H] | [ H | [ H | [ H | [ H | [Hroot Hdot] ] ] ] ] ] ].
  - apply has_segment_goes_through in H.
    pose proof (glob_match_through ["node_modules"%string] p H) as Hm.
    unfold Glob.globstar in Hm. cbn [app] in Hm. rewrite Hm. reflexivity.
  - rewrite (normalizeIgnored_dist d Hplain).
    rewrite (glob_match_through _ p H). apply orb_true_r.
  - apply has_segment_goes_through in H.
    pose proof (glob_match_through ["test"%string] p H) as Hm.
    unfold Glob.globstar in Hm. cbn [app] in Hm.
    rewrite Hm, !orb_true_r. reflexivity.
  - apply has_segment_goes_through in H.
    pose proof (glob_match_through ["tests"%string] p H) as Hm.
    unfold Glob.globstar in Hm. cbn [app] in Hm.
    rewrite Hm, !orb_true_r. reflexivity.
  - pose proof (glob_match_file_name ".test.js" p H) as Hm.
    unfold Glob.globstar, Glob.star in Hm.
    rewrite Hm, !orb_true_r. reflexivity.
  - pose proof (glob_match_file_name ".test.ts" p H) as Hm.
    unfold Glob.globstar, Glob.star in Hm.
    rewrite Hm, !orb_true_r. reflexivity.
  - apply String.eqb_neq in Hroot. rewrite Hroot, Hdot, !orb_true_r.
    reflexivity.
Qed.





(** ** C1 *)

(** What the function of the [ignored] list accepts: the paths that begin
    with a dot, the path [.] itself left out. *)
Lemma leading_dot_ignored (d p : string) :
  p <> "."%string ->
  JsString.startsWith p "." = true ->
  isIgnored (ignored d) p = true.
Proof.
  intros Hroot Hdot. rewrite isIgnored_cases, Hdot.
  apply String.eqb_neq in Hroot. rewrite Hroot.
  rewrite !orb_true_r. reflexivity.
Qed.

(** C1 fails on the code: [src/.env] is a dotfile, it is not the watched
    directory, and a change to it runs the pipeline.  The function of the
    [ignored] list looks at the first character of the whole path, not of its
    final segment. *)
Lemma dotfile_in_subdirectory_triggers_rebuild :
  final_segment "src/.env" = ".env"%string
  /\ JsString.startsWith (final_segment "src/.env") "." = true
  /\ "src/.env"%string <> s_rootDir (active_session sample_argv)
  /\ isIgnored (s_ignored (active_session sample_argv)) "src/.env" = false
  /\ session_step all_fine (active_session sample_argv)
       (FileChanged "src/.env") []
     = ([ LogInfo "File changed: src/.env";
          LoadConfig;
          Bundle "src/index.js" "dist/bundle.js";
          ManifestHandler;
          EvalHandler "dist/bundle.js" ],
        Returned (active_session sample_argv)).
Proof.
  split; [ reflexivity | ].
  split; [ reflexivity | ].
  split; [ discriminate | ].
  split; reflexivity.
Qed.

(** * Further properties of the handler *)

(** ** The watched directory *)

Section RootDirShape.

Local Open Scope string_scope.

Lemma prefix_app (a b : string) : String.prefix a (a ++ b) = true.
Proof.
  induction a as [ | c a IH ].
  - destruct b; reflexivity.
  - change (String.prefix (String c a) (String c a ++ b))
      with (if ascii_dec c c then String.prefix a (a ++ b) else false).
    destruct (ascii_dec c c) as [ _ | Hne ]; [ exact IH | contradiction ].
Qed.

Lemma prefix_cons_inv (c : ascii) (r p : string) :
  String.prefix (String c r) p = true ->
  exists p', p = String c p' /\ String.prefix r p' = true.
Proof.
  destruct p as [ | d p ]; [ discriminate | ].
  change (String.prefix (String c r) (String d p))
    with (if ascii_dec c d then String.prefix r p else false).
  destruct (ascii_dec c d) as [ <- | _ ]; [ | discriminate ].
  intros Hpre. exists p. split; [ reflexivity | exact Hpre ].
Qed.

Lemma no_separator_empty : no_separator EmptyString.
Proof. intros [ | ? ? ] b Heq; discriminate Heq. Qed.

(** X3. The directory handed to the watcher is never the empty string: it is
    [.] or ends with a separator.  With a separator in the source path it is
    an initial part of that path.  Taking the directory of the directory
    changes nothing. *)
Theorem rootDir_is_a_directory (source : string) :
  rootDir source <> EmptyString
  /\ (rootDir source = "." \/ exists dir, rootDir source = dir ++ "/")
  /\ (JsString.includes source "/" = true ->
      String.prefix (rootDir source) source = true)
  /\ rootDir (rootDir source) = rootDir source.
Proof.
  destruct (separator_cases source) as [ Hno | (dir & file & -> & Hno) ].
  - rewrite (rootDir_without_separator source Hno).
    split; [ discriminate | ].
    split; [ left; reflexivity | ].
    split; [ | reflexivity ].
    destruct (no_separator_search source Hno) as [-> _]. discriminate.
  - rewrite (rootDir_with_separator dir file Hno).
    split; [ destruct dir; discriminate | ].
    split; [ right; exists dir; reflexivity | ].
    split.
    + intros _. rewrite <- str_app_assoc. apply prefix_app.
    + apply (rootDir_with_separator dir EmptyString no_separator_empty).
Qed.

Lemma rootDir_is_a_directory_witness :
  JsString.includes "src/lib/index.js" "/" = true
  /\ String.prefix (rootDir "src/lib/index.js") "src/lib/index.js" = true.
Proof.
  split; [ reflexivity | ].
  apply (proj1 (proj2 (proj2 (rootDir_is_a_directory "src/lib/index.js")))).
  reflexivity.
Defined.

End RootDirShape.

(** ** The text of an error line *)

Section ErrorText.

Local Open Scope string_scope.

Lemma str_app_inv_head (p a b : string) : p ++ a = p ++ b -> a = b.
Proof.
  induction p as [ | c p IH ]; cbn; intros Heq; [ exact Heq | ].
  injection Heq as Heq. exact (IH Heq).
Qed.

Lemma str_app_inv_tail (a b s : string) : a ++ s = b ++ s -> a = b.
Proof.
  revert b. induction a as [ | c a IH ]; intros [ | d b ] Heq; cbn in Heq.
  - reflexivity.
  - exfalso. apply (f_equal String.length) in Heq.
    cbn in Heq. rewrite str_length_app in Heq. lia.
  - exfalso. apply (f_equal String.length) in Heq.
    cbn in Heq. rewrite str_length_app in Heq. lia.
  - injection Heq as -> Heq. f_equal. exact (IH b Heq).
Qed.

(** X4. The text logged for a failed run tells where the run came from: the text
    of the initial build is the text of no path, and two paths with the same
    text are the same path. *)
Theorem errorContext_identifies_the_run (p q : string) :
  errorContext (Some p) <> errorContext None
  /\ (errorContext (Some p) = errorContext (Some q) -> p = q).
Proof.
  split.
  - rewrite errorContext_path. discriminate.
  - rewrite !errorContext_path. intros Heq.
    apply (str_app_inv_head "Error while processing ") in Heq.
    apply (str_app_inv_head dquote) in Heq.
    apply (str_app_inv_tail p q (dquote ++ ".")) in Heq. exact Heq.
Qed.

Lemma errorContext_identifies_witness :
  errorContext (Some "src/a.js") = errorContext (Some "src/a.js")
  /\ "src/a.js" = "src/a.js".
Proof.
  split; [ reflexivity | ].
  apply (proj2 (errorContext_identifies_the_run "src/a.js" "src/a.js")).
  reflexivity.
Defined.

End ErrorText.

(** ** Loading the configuration *)

(** Nothing precedes the loading of the configuration. *)
Lemma cut_at_load_config (argv : YargsArgs) (out : string)
  (pre rest : list effect) :
  LoadConfig :: steps argv out = pre ++ LoadConfig :: rest -> pre = [].
Proof.
  unfold steps. intros Hcut.
  destruct (manifest argv), (shouldEval argv); cbn [app] in Hcut;
    enum_cut Hcut; subst; try discriminate; reflexivity.
Qed.

Lemma buildSnap_head
  (w : World) (argv : YargsArgs) (outfilePath : string)
  (path logMessage : option string) (h : trace) :
  exists tail,
    effects (buildSnap w argv outfilePath path logMessage) h
    = info_log logMessage ++ LoadConfig :: tail.
Proof.
  destruct (buildSnap_cases w argv outfilePath path logMessage h)
    as [ (Heff & _) | (pre & c & rest & e & Hcs & Heff & _) ];
    rewrite Heff.
  - eexists. reflexivity.
  - destruct pre as [ | x pre ]; cbn [app] in Hcs;
      apply cons_eq_inv in Hcs; destruct Hcs as [<- _];
      eexists; reflexivity.
Qed.

(** X5. Every run of [buildSnap] loads the configuration anew, before anything
    else but its announcement.  When that fails the run consists of the
    announcement, the attempt and the error line: the bundler is not called,
    nor any later step. *)
Theorem loadConfig_failure_skips_the_pipeline
  (w : World) (argv : YargsArgs) (outfilePath : string)
  (path logMessage : option string) (h : trace) :
  let d := effects (buildSnap w argv outfilePath path logMessage) h in
  (exists tail, d = info_log logMessage ++ LoadConfig :: tail)
  /\ (forall err,
         failed w h d LoadConfig err ->
         d = info_log logMessage
             ++ [LoadConfig; LogError (errorContext path) err]
         /\ filter is_pipeline_step d = []).
Proof.
  intros d. subst d. split.
  - apply buildSnap_head.
  - intros err Hfailed.
    destruct (buildSnap_failed w argv outfilePath path logMessage h _ err
                Hfailed) as (pre & rest & Hcs & Heff & _).
    apply cut_at_load_config in Hcs. subst pre. cbn [app] in Heff.
    rewrite Heff. split; [ reflexivity | ].
    rewrite filter_app, info_log_no_step. reflexivity.
Qed.

Lemma loadConfig_failure_witness :
  let w : World :=
    fun _ e => match e with LoadConfig => Some boom | _ => None end in
  let d := effects (buildSnap w sample_argv "dist/bundle.js"
                      (Some "src/a.js"%string)
                      (Some "File changed: src/a.js"%string)) [] in
  failed w [] d LoadConfig boom
  /\ filter is_pipeline_step d = [].
Proof.
  intros w d.
  assert (Hf : failed w [] d LoadConfig boom).
  { split; [ reflexivity | ].
    exists [LogInfo "File changed: src/a.js"],
           [LogError (errorContext (Some "src/a.js"%string)) boom].
    split; reflexivity. }
  split; [ exact Hf | ].
  exact (proj2 (proj2 (loadConfig_failure_skips_the_pipeline w sample_argv
                         "dist/bundle.js" (Some "src/a.js"%string)
                         (Some "File changed: src/a.js"%string) [])
                  boom Hf)).
Defined.

(** ** The error lines of the [ready] handler *)

(** X6. Whatever goes wrong in the [ready] handler is logged under one text,
    [Error during initial build.]: a failed first build and a dev server
    that does not start are told apart by the error only.  The handler logs
    the error line of the build, if any, and one more when the server was
    asked for and failed to start. *)
Theorem on_ready_error_lines
  (w : World) (argv : YargsArgs) (outfilePath : string) (h : trace) :
  let build := effects (buildSnap w argv outfilePath None None) h in
  let d := effects (on_ready w argv outfilePath) h in
  (forall e,
      In e d -> is_log_error e = true ->
      exists err, e = LogError "Error during initial build." err)
  /\ count is_log_error d
     = count is_log_error build
       + (if shouldServe argv
          then match w (h ++ build) Serve with
               | Some _ => 1
               | None => 0
               end
          else 0).
Proof.
  intros build d. subst build d.
  change (effects (on_ready w argv outfilePath) h)
    with (fst (on_ready w argv outfilePath h)).
  rewrite on_ready_run. cbn [fst]. split.
  - intros e Hin Herr. apply in_app_or in Hin. destruct Hin as [ Hin | Hin ].
    + destruct (buildSnap_cases w argv outfilePath None None h)
        as [ (Heff & _) | (pre & c & rest & e0 & Hcs & Heff & _) ];
        rewrite Heff in Hin; cbn [info_log app] in Hin.
      * exfalso.
        pose proof (steps_are_fallible argv outfilePath e Hin) as Hf.
        destruct e; discriminate.
      * apply in_app_or in Hin. destruct Hin as [ Hin | Hin ].
        -- exfalso.
           assert (Hc : In e (LoadConfig :: steps argv outfilePath))
             by (rewrite Hcs; apply in_or_app; left; exact Hin).
           pose proof (steps_are_fallible argv outfilePath e Hc) as Hf.
           destruct e; discriminate.
        -- destruct Hin as [ <- | [ <- | [] ] ].
           ++ exfalso.
              assert (Hc : In c (LoadConfig :: steps argv outfilePath))
                by (rewrite Hcs; apply in_elt).
              pose proof (steps_are_fallible argv outfilePath c Hc) as Hf.
              destruct c; discriminate.
           ++ exists e0. reflexivity.
    + unfold serve_log in Hin.
      destruct (shouldServe argv); [ | destruct Hin ].
      destruct (w (h ++ effects (buildSnap w argv outfilePath None None) h)
                  Serve) as [ err | ];
        in_cases Hin; subst; try discriminate Herr.
      exists err. reflexivity.
  - rewrite count_app. f_equal. unfold serve_log, count.
    destruct (shouldServe argv); [ | reflexivity ].
    destruct (w (h ++ effects (buildSnap w argv outfilePath None None) h)
                Serve); reflexivity.
Qed.

Lemma on_ready_error_lines_witness :
  let w : World :=
    fun _ e => match e with
               | Bundle _ _ | Serve => Some boom
               | _ => None
               end in
  let d := effects (on_ready w sample_argv "dist/bundle.js") [] in
  In (LogError "Error during initial build." boom) d
  /\ is_log_error (LogError "Error during initial build." boom) = true
  /\ count is_log_error d = 2
  /\ exists err,
       LogError "Error during initial build." boom
       = LogError "Error during initial build." err.
Proof.
  intros w d.
  assert (Hin : In (LogError "Error during initial build." boom) d)
    by (right; right; left; reflexivity).
  split; [ exact Hin | ].
  split; [ reflexivity | ].
  split; [ reflexivity | ].
  exact (proj1 (on_ready_error_lines w sample_argv "dist/bundle.js" [])
           _ Hin eq_refl).
Defined.

(** ** Additions, changes and watcher errors *)

Lemma session_step_change (w : World) (s : Session) (p : string)
  (h : trace) :
  isIgnored (s_ignored s) p = false ->
  session_step w s (FileChanged p) h
  = (effects (buildSnap w (s_argv s) (s_outfilePath s) (Some p)
                (Some ("File changed: " ++ p)%string)) h,
     Returned s).
Proof.
  intros Hign. rewrite session_step_run. cbn [chokidar_emit]. rewrite Hign.
  cbn [fst snd dispatch]. unfold effects. rewrite on_change_run.
  reflexivity.
Qed.

Lemma session_step_add (w : World) (s : Session) (p : string) (h : trace) :
  isIgnored (s_ignored s) p = false ->
  s_ready s = true ->
  session_step w s (FileAdded p) h
  = (effects (buildSnap w (s_argv s) (s_outfilePath s) (Some p)
                (Some ("File added: " ++ p)%string)) h,
     Returned s).
Proof.
  intros Hign Hready. rewrite session_step_run. cbn [chokidar_emit].
  rewrite Hign, Hready.
  cbn [fst snd dispatch]. unfold effects. rewrite on_add_run.
  reflexivity.
Qed.

(** X7. A change of a path that is not ignored is announced, then the
    configuration is loaded: the handler runs [buildSnap] with that path and
    leaves the session as it is.  So does an addition once [ready] has been
    emitted; an addition seen before that, during the first scan, has no
    effect at all. *)
Theorem add_and_change_announce_then_rebuild
  (w : World) (s : Session) (p : string) (h : trace) :
  isIgnored (s_ignored s) p = false ->
  (session_step w s (FileChanged p) h
   = (effects (buildSnap w (s_argv s) (s_outfilePath s) (Some p)
                 (Some ("File changed: " ++ p)%string)) h,
      Returned s)
   /\ exists tail,
        effects (session_step w s (FileChanged p)) h
        = LogInfo ("File changed: " ++ p)%string :: LoadConfig :: tail)
  /\ (s_ready s = true ->
      session_step w s (FileAdded p) h
      = (effects (buildSnap w (s_argv s) (s_outfilePath s) (Some p)
                    (Some ("File added: " ++ p)%string)) h,
         Returned s)
      /\ exists tail,
           effects (session_step w s (FileAdded p)) h
           = LogInfo ("File added: " ++ p)%string :: LoadConfig :: tail)
  /\ (s_ready s = false ->
      session_step w s (FileAdded p) h = ([], Returned s)).
Proof.
  intros Hign.
  assert (Hhead : forall msg,
    exists tail,
      effects (buildSnap w (s_argv s) (s_outfilePath s) (Some p) (Some msg)) h
      = LogInfo msg :: LoadConfig :: tail).
  { intros msg.
    apply (buildSnap_head w (s_argv s) (s_outfilePath s) (Some p) (Some msg)). }
  split; [ | split ].
  - split; [ apply session_step_change, Hign | ].
    unfold effects at 1. rewrite (session_step_change w s p h Hign).
    cbn [fst]. apply Hhead.
  - intros Hready.
    split; [ apply session_step_add; assumption | ].
    unfold effects at 1. rewrite (session_step_add w s p h Hign Hready).
    cbn [fst]. apply Hhead.
  - intros Hready. rewrite session_step_run. cbn [chokidar_emit].
    rewrite Hign, Hready. reflexivity.
Qed.

Lemma add_and_change_witness :
  isIgnored (s_ignored (new_session sample_argv)) "src/helpers.js" = false
  /\ s_ready (new_session sample_argv) = false
  /\ session_step bundle_fails (new_session sample_argv)
       (FileAdded "src/helpers.js") []
     = ([], Returned (new_session sample_argv))
  /\ session_step bundle_fails (new_session sample_argv)
       (FileChanged "src/helpers.js") []
     = ([ LogInfo "File changed: src/helpers.js";
          LoadConfig;
          Bundle "src/index.js" "dist/bundle.js";
          LogError (errorContext (Some "src/helpers.js"%string)) boom ],
        Returned (new_session sample_argv)).
Proof.
  pose proof (add_and_change_announce_then_rebuild bundle_fails
                (new_session sample_argv) "src/helpers.js" [] eq_refl)
    as ((Hchange & _) & _ & Hinitial).
  split; [ reflexivity | ].
  split; [ reflexivity | ].
  split; [ exact (Hinitial eq_refl) | exact Hchange ].
Defined.

(** X8. An error of the watcher is logged with its message and changes nothing
    else: the notifications that follow are handled as they would have been
    without it, the history being one line longer.  In particular a change
    reported after the error is still announced and rebuilt. *)
Theorem watcher_error_is_logged_and_passed
  (w : World) (s : Session) (err : error) (ns : list Notification)
  (h : trace) :
  let line := LogError ("Watcher error: " ++ message err)%string err in
  run_session w s (WatcherFailure err :: ns) h
  = (line :: effects (run_session w s ns) (h ++ [line]),
     outcome (run_session w s ns) (h ++ [line]))
  /\ (forall p,
         isIgnored (s_ignored s) p = false ->
         exists tail,
           effects (run_session w s (WatcherFailure err :: FileChanged p :: ns))
             h
           = line :: LogInfo ("File changed: " ++ p)%string
               :: LoadConfig :: tail).
Proof.
  intros line.
  assert (Hpass : forall ns',
    run_session w s (WatcherFailure err :: ns') h
    = (line :: effects (run_session w s ns') (h ++ [line]),
       outcome (run_session w s ns') (h ++ [line]))).
  { intros ns'. rewrite run_session_cons.
    unfold effects at 1 3. rewrite session_step_run. reflexivity. }
  split; [ apply Hpass | ].
  intros p Hign. unfold effects at 1. rewrite Hpass. cbn [fst].
  unfold effects at 1. rewrite run_session_cons. cbn [fst].
  unfold effects at 1. rewrite (session_step_change w s p _ Hign). cbn [fst].
  destruct (buildSnap_head w (s_argv s) (s_outfilePath s) (Some p)
              (Some ("File changed: " ++ p)%string) (h ++ [line]))
    as [tail Htail].
  rewrite Htail. cbn [info_log app]. eexists. reflexivity.
Qed.

Lemma watcher_error_witness :
  isIgnored (s_ignored (active_session sample_argv)) "src/helpers.js" = false
  /\ exists tail,
       effects (run_session all_fine (active_session sample_argv)
                  [WatcherFailure boom; FileChanged "src/helpers.js"]) []
       = LogError "Watcher error: boom" boom
           :: LogInfo "File changed: src/helpers.js" :: LoadConfig :: tail.
Proof.
  split; [ reflexivity | ].
  apply (proj2 (watcher_error_is_logged_and_passed all_fine
                  (active_session sample_argv) boom [] [])
           "src/helpers.js"%string).
  reflexivity.
Defined.

(** ** What a session does and does not do *)

Section SessionEffects.

Variable w : World.

Lemma steps_permitted (argv : YargsArgs) (out : string) :
  forall x, In x (LoadConfig :: steps argv out) -> permitted argv out x = true.
Proof.
  unfold steps. intros x Hin.
  destruct (manifest argv) eqn:Hm, (shouldEval argv) eqn:He;
    in_cases Hin; subst; cbn [permitted];
    rewrite ?Hm, ?He, ?String.eqb_refl; reflexivity.
Qed.

Lemma buildSnap_permitted (argv : YargsArgs) (out : string)
  (path logMessage : option string) (h : trace) :
  forall e,
    In e (effects (buildSnap w argv out path logMessage) h) ->
    permitted argv out e = true.
Proof.
  intros e Hin.
  destruct (buildSnap_cases w argv out path logMessage h)
    as [ (Heff & _) | (pre & c & rest & e0 & Hcs & Heff & _) ];
    rewrite Heff in Hin; apply in_app_or in Hin;
    destruct Hin as [ Hin | Hin ].
  - destruct logMessage; cbn [info_log] in Hin; in_cases Hin; subst;
      reflexivity.
  - apply steps_permitted, Hin.
  - destruct logMessage; cbn [info_log] in Hin; in_cases Hin; subst;
      reflexivity.
  - apply in_app_or in Hin. destruct Hin as [ Hin | Hin ].
    + apply steps_permitted. rewrite Hcs. apply in_or_app. left. exact Hin.
    + destruct Hin as [ <- | [ <- | [] ] ]; [ | reflexivity ].
      apply steps_permitted. rewrite Hcs. apply in_elt.
Qed.

Lemma session_step_permitted (s : Session) (n : Notification) (h : trace) :
  forall e,
    In e (effects (session_step w s n) h) ->
    permitted (s_argv s) (s_outfilePath s) e = true.
Proof.
  intros e. unfold effects at 1. rewrite session_step_run. cbn [fst].
  destruct n as [ | p | p | p | err ]; cbn [chokidar_emit].
  - destruct (s_ready s); cbn [fst snd]; [ intros [] | ].
    unfold effects at 1. cbn [dispatch s_argv s_outfilePath].
    rewrite on_ready_run. cbn [fst]. intros Hin.
    apply in_app_or in Hin. destruct Hin as [ Hin | Hin ].
    + exact (buildSnap_permitted _ _ _ _ _ e Hin).
    + unfold serve_log in Hin.
      destruct (shouldServe (s_argv s)) eqn:Hserve; [ | destruct Hin ].
      destruct (w _ Serve); in_cases Hin; subst; cbn [permitted];
        rewrite ?Hserve; reflexivity.
  - destruct (isIgnored (s_ignored s) p); cbn [fst snd]; [ intros [] | ].
    destruct (s_ready s); cbn [fst snd]; [ | intros [] ].
    unfold effects. cbn [dispatch]. rewrite on_add_run.
    apply buildSnap_permitted.
  - destruct (isIgnored (s_ignored s) p); cbn [fst snd]; [ intros [] | ].
    unfold effects. cbn [dispatch]. rewrite on_change_run.
    apply buildSnap_permitted.
  - destruct (isIgnored (s_ignored s) p); cbn [fst snd]; [ intros [] | ].
    intros [ <- | [] ]. reflexivity.
  - cbn [fst snd]. intros [ <- | [] ]. reflexivity.
Qed.

Lemma run_session_permitted (ns : list Notification) :
  forall s h e,
    In e (effects (run_session w s ns) h) ->
    permitted (s_argv s) (s_outfilePath s) e = true.
Proof.
  induction ns as [ | n ns IH ]; intros s h e Hin.
  - destruct Hin.
  - unfold effects at 1 in Hin. rewrite run_session_cons in Hin.
    cbn [fst] in Hin. apply in_app_or in Hin. destruct Hin as [ Hin | Hin ].
    + exact (session_step_permitted s n h e Hin).
    + apply IH in Hin.
      destruct (chokidar_emit_keeps s n) as (Hargv & _ & Hout & _).
      cbv zeta in Hargv, Hout. rewrite Hargv, Hout in Hin. exact Hin.
Qed.

(** Counting the calls of one run. *)
Lemma buildSnap_counts (argv : YargsArgs) (out : string)
  (path logMessage : option string) (h : trace) :
  let d := effects (buildSnap w argv out path logMessage) h in
  count is_load_config d = 1
  /\ count is_bundle d <= 1
  /\ count is_manifest d <= count is_bundle d
  /\ count is_eval d <= count is_bundle d.
Proof.
  intros d. subst d.
  destruct (buildSnap_cases w argv out path logMessage h)
    as [ (Heff & _) | (pre & c & rest & e0 & Hcs & Heff & _) ];
    rewrite Heff; clear Heff.
  - unfold steps, count.
    destruct logMessage, (manifest argv), (shouldEval argv); cbn; lia.
  - unfold steps in Hcs.
    destruct (manifest argv), (shouldEval argv); cbn [app] in Hcs;
      enum_cut Hcs; subst; try discriminate;
      unfold count; destruct logMessage; cbn; lia.
Qed.

Lemma serve_log_counts (argv : YargsArgs) (h : trace) :
  count is_load_config (serve_log w argv h) = 0
  /\ count is_bundle (serve_log w argv h) = 0
  /\ count is_manifest (serve_log w argv h) = 0
  /\ count is_eval (serve_log w argv h) = 0.
Proof.
  unfold serve_log, count.
  destruct (shouldServe argv); [ destruct (w h Serve) | ]; cbn; auto.
Qed.

Lemma session_step_counts (s : Session) (n : Notification) (h : trace) :
  let d := effects (session_step w s n) h in
  count is_load_config d <= 1
  /\ count is_bundle d <= count is_load_config d
  /\ count is_manifest d <= count is_bundle d
  /\ count is_eval d <= count is_bundle d.
Proof.
  intros d. subst d. unfold effects at 1 2 3 4 5 6 7.
  rewrite session_step_run. cbn [fst].
  assert (Hnone : count is_load_config [] <= 1
                  /\ count is_bundle [] <= count is_load_config []
                  /\ count is_manifest [] <= count is_bundle []
                  /\ count is_eval [] <= count is_bundle [])
    by (cbn; lia).
  assert (Hbuild : forall path msg,
    let d := effects (buildSnap w (s_argv s) (s_outfilePath s) path msg) h in
    count is_load_config d <= 1
    /\ count is_bundle d <= count is_load_config d
    /\ count is_manifest d <= count is_bundle d
    /\ count is_eval d <= count is_bundle d).
  { intros path msg.
    pose proof (buildSnap_counts (s_argv s) (s_outfilePath s) path msg h)
      as Hc.
    cbv zeta in *. lia. }
  destruct n as [ | p | p | p | err ]; cbn [chokidar_emit].
  - destruct (s_ready s); cbn [fst snd]; [ exact Hnone | ].
    unfold effects. cbn [dispatch s_argv s_outfilePath].
    rewrite on_ready_run. cbn [fst]. rewrite !count_app.
    destruct (serve_log_counts (s_argv s)
                (h ++ effects (buildSnap w (s_argv s) (s_outfilePath s)
                                 None None) h))
      as (-> & -> & -> & ->).
    pose proof (Hbuild None None) as Hc. cbv zeta in Hc. lia.
  - destruct (isIgnored (s_ignored s) p); cbn [fst snd]; [ exact Hnone | ].
    destruct (s_ready s); cbn [fst snd]; [ | exact Hnone ].
    unfold effects. cbn [dispatch]. rewrite on_add_run. apply Hbuild.
  - destruct (isIgnored (s_ignored s) p); cbn [fst snd]; [ exact Hnone | ].
    unfold effects. cbn [dispatch]. rewrite on_change_run. apply Hbuild.
  - destruct (isIgnored (s_ignored s) p); cbn [fst snd]; [ exact Hnone | ].
    cbn. lia.
  - cbn. lia.
Qed.

End SessionEffects.

(** X9. Over a whole session the bundler is given the source path and the
    bundle location computed by [watch], and the evaluator is given that
    same location: what is evaluated is what was bundled. *)
Theorem bundler_and_evaluator_share_the_bundle
  (w : World) (s : Session) (ns : list Notification) (h : trace) :
  let d := effects (run_session w s ns) h in
  (forall a b,
      In (Bundle a b) d -> a = src (s_argv s) /\ b = s_outfilePath s)
  /\ (forall b, In (EvalHandler b) d -> b = s_outfilePath s).
Proof.
  intros d. subst d. split.
  - intros a b Hin. apply run_session_permitted in Hin.
    cbn [permitted] in Hin. apply andb_prop in Hin.
    destruct Hin as [Ha Hb]. split; apply String.eqb_eq; assumption.
  - intros b Hin. apply run_session_permitted in Hin.
    cbn [permitted] in Hin. apply andb_prop in Hin.
    destruct Hin as [_ Hb]. apply String.eqb_eq, Hb.
Qed.

Lemma bundler_and_evaluator_witness :
  let d := effects (run_session all_fine (new_session sample_argv)
                      [ScanComplete]) [] in
  In (EvalHandler "dist/bundle.js") d
  /\ "dist/bundle.js"%string = s_outfilePath (new_session sample_argv).
Proof.
  intros d.
  assert (Hin : In (EvalHandler "dist/bundle.js") d)
    by (right; right; right; left; reflexivity).
  split; [ exact Hin | ].
  exact (proj2 (bundler_and_evaluator_share_the_bundle all_fine
                  (new_session sample_argv) [ScanComplete] [])
           "dist/bundle.js"%string Hin).
Defined.

(** X10. A session never runs a step that was not asked for: no manifest check
    without the manifest flag, no evaluation without the eval flag.  It never
    validates its arguments again and never subscribes to the watcher
    again. *)
Theorem session_runs_only_enabled_steps
  (w : World) (s : Session) (ns : list Notification) (h : trace) :
  let d := effects (run_session w s ns) h in
  (manifest (s_argv s) = false -> ~ In ManifestHandler d)
  /\ (shouldEval (s_argv s) = false -> forall b, ~ In (EvalHandler b) d)
  /\ (forall e, In e d -> is_validation e = false /\ is_subscription e = false).
Proof.
  intros d. subst d. split; [ | split ].
  - intros Hflag Hin. apply run_session_permitted in Hin.
    cbn [permitted] in Hin. congruence.
  - intros Hflag b Hin. apply run_session_permitted in Hin.
    cbn [permitted] in Hin. rewrite Hflag in Hin. discriminate Hin.
  - intros e Hin. apply run_session_permitted in Hin.
    destruct e; try discriminate Hin; split; reflexivity.
Qed.

Lemma session_runs_only_enabled_witness :
  manifest (s_argv (new_session outside_argv)) = false
  /\ shouldEval (s_argv (new_session outside_argv)) = false
  /\ ~ In ManifestHandler
         (effects (run_session all_fine (new_session outside_argv)
                     [ScanComplete; FileChanged "lib/a.js"]) [])
  /\ ~ In (EvalHandler "dist/snap.js")
         (effects (run_session all_fine (new_session outside_argv)
                     [ScanComplete; FileChanged "lib/a.js"]) []).
Proof.
  pose proof (session_runs_only_enabled_steps all_fine
                (new_session outside_argv)
                [ScanComplete; FileChanged "lib/a.js"] [])
    as (Hmanifest & Heval & _).
  split; [ reflexivity | ].
  split; [ reflexivity | ].
  split; [ exact (Hmanifest eq_refl) | exact (Heval eq_refl _) ].
Defined.

(** X11. A notification starts at most one pipeline run: over a session the
    configuration is loaded at most once per notification, the bundler is
    called at most once per loaded configuration, and the manifest check and
    the evaluation at most once per call of the bundler. *)
Theorem at_most_one_run_per_notification
  (w : World) (s : Session) (ns : list Notification) (h : trace) :
  let d := effects (run_session w s ns) h in
  count is_load_config d <= List.length ns
  /\ count is_bundle d <= count is_load_config d
  /\ count is_manifest d <= count is_bundle d
  /\ count is_eval d <= count is_bundle d.
Proof.
  intros d. subst d. revert s h.
  induction ns as [ | n ns IH ]; intros s h.
  - cbn. lia.
  - unfold effects. rewrite run_session_cons. cbn [fst].
    rewrite !count_app.
    pose proof (session_step_counts w s n h) as Hstep.
    pose proof (IH (fst (chokidar_emit s n))
                  (h ++ effects (session_step w s n) h)) as Hrest.
    cbv zeta in Hstep. unfold effects in *. cbn [List.length]. lia.
Qed.

(** ** The two states of a session *)

Lemma active_session_stays (w : World) (argv : YargsArgs)
  (ns : list Notification) :
  forall h,
    outcome (run_session w (active_session argv) ns) h
    = Returned (active_session argv).
Proof.
  induction ns as [ | n ns IH ]; intros h; [ reflexivity | ].
  unfold outcome. rewrite run_session_cons. cbn [snd].
  replace (fst (chokidar_emit (active_session argv) n))
    with (active_session argv); [ apply IH | ].
  destruct n as [ | p | p | p | err ]; cbn [chokidar_emit];
    try reflexivity;
    destruct (isIgnored (s_ignored (active_session argv)) p); reflexivity.
Qed.

(** X12. The session that [watch] returns waits for the end of the first scan.
    From then on it is active, and nothing else about it ever changes:
    after any notifications it is the session [watch] returned, marked ready
    exactly when the end of the first scan was among them. *)
Theorem session_is_pending_then_active
  (w : World) (argv : YargsArgs) (ns : list Notification)
  (h0 h : trace) (s0 : Session) :
  outcome (watch w argv) h0 = Returned s0 ->
  s0 = new_session argv
  /\ outcome (run_session w s0 ns) h
     = Returned (if existsb is_scan_complete ns
                 then active_session argv
                 else new_session argv).
Proof.
  intros Hwatch.
  assert (Hs0 : s0 = new_session argv).
  { unfold outcome in Hwatch. rewrite watch_run in Hwatch.
    destruct (outcome (run_calls w (validations argv)) h0);
      cbn [snd] in Hwatch; [ | discriminate Hwatch ].
    injection Hwatch as <-. reflexivity. }
  split; [ exact Hs0 | ]. subst s0. clear Hwatch. revert h.
  induction ns as [ | n ns IH ]; intros h; [ reflexivity | ].
  unfold outcome. rewrite run_session_cons. cbn [snd].
  destruct n as [ | p | p | p | err ]; cbn [existsb is_scan_complete orb].
  - apply (active_session_stays w argv ns).
  - replace (fst (chokidar_emit (new_session argv) (FileAdded p)))
      with (new_session argv); [ apply IH | ].
    cbn [chokidar_emit].
    destruct (isIgnored (s_ignored (new_session argv)) p); reflexivity.
  - replace (fst (chokidar_emit (new_session argv) (FileChanged p)))
      with (new_session argv); [ apply IH | ].
    cbn [chokidar_emit].
    destruct (isIgnored (s_ignored (new_session argv)) p); reflexivity.
  - replace (fst (chokidar_emit (new_session argv) (FileRemoved p)))
      with (new_session argv); [ apply IH | ].
    cbn [chokidar_emit].
    destruct (isIgnored (s_ignored (new_session argv)) p); reflexivity.
  - apply IH.
Qed.

Lemma session_is_pending_then_active_witness :
  outcome (watch all_fine sample_argv) [] = Returned (new_session sample_argv)
  /\ outcome (run_session bundle_fails (new_session sample_argv)
                [FileAdded "src/a.js"; ScanComplete; WatcherFailure boom]) []
     = Returned (active_session sample_argv).
Proof.
  split; [ reflexivity | ].
  apply (proj2 (session_is_pending_then_active bundle_fails sample_argv
                  [FileAdded "src/a.js"; ScanComplete; WatcherFailure boom]
                  [] [] (new_session sample_argv)
                  (eq_refl : outcome (watch bundle_fails sample_argv) []
                             = Returned (new_session sample_argv)))).
Defined.

(** ** The ignore list, read both ways *)

Section IgnoreList.

Local Open Scope string_scope.

Lemma literal_not_star (c : ascii) :
  Glob.special c = false -> Ascii.eqb c Glob.star = false.
Proof.
  unfold Glob.special. cbn [list_ascii_of_string existsb].
  intros Hs. apply orb_false_elim in Hs. exact (proj1 Hs).
Qed.

(** A pattern segment without glob characters accepts itself only. *)
Lemma wild_match_literal (lit : string) :
  Glob.literal_text lit = true ->
  forall s, Glob.wild_match lit s = true -> s = lit.
Proof.
  induction lit as [ | c lit IH ]; intros Hlit s Hm.
  - destruct s; [ reflexivity | discriminate Hm ].
  - cbn [Glob.literal_text] in Hlit. apply andb_prop in Hlit.
    destruct Hlit as [Hc Hlit]. apply negb_true_iff in Hc.
    cbn [Glob.wild_match] in Hm. rewrite (literal_not_star c Hc) in Hm.
    destruct s as [ | d s ]; [ discriminate Hm | ].
    apply andb_prop in Hm. destruct Hm as [Hcd Hm].
    apply Ascii.eqb_eq in Hcd. subst d. f_equal. exact (IH Hlit s Hm).
Qed.

(** [*lit] accepts nothing but the segments that end with [lit]. *)
Lemma wild_match_suffix_inv (lit : string) :
  Glob.literal_text lit = true ->
  forall s,
    Glob.wild_match (String Glob.star lit) s = true ->
    exists stem, s = stem ++ lit.
Proof.
  intros Hlit. induction s as [ | c s IH ]; intros Hm;
    rewrite wild_match_star in Hm; apply orb_prop in Hm;
    destruct Hm as [ Hm | Hm ].
  - exists EmptyString. exact (wild_match_literal lit Hlit _ Hm).
  - discriminate Hm.
  - exists EmptyString. exact (wild_match_literal lit Hlit _ Hm).
  - destruct (IH Hm) as [stem ->]. exists (String c stem). reflexivity.
Qed.

Lemma literal_segment_facts (seg : string) :
  Glob.literal_segment seg = true ->
  String.eqb seg Glob.globstar = false /\ Glob.literal_text seg = true.
Proof.
  unfold Glob.literal_segment. intros Hseg.
  apply andb_prop in Hseg. destruct Hseg as [_ Hlit].
  split; [ | exact Hlit ].
  destruct (String.eqb_spec seg Glob.globstar) as [ -> | _ ];
    [ discriminate Hlit | reflexivity ].
Qed.

Lemma glob_match_skip_inv (pat : list string) :
  forall path,
    Glob.glob_match (Glob.globstar :: pat) path = true ->
    exists parents rest,
      path = (parents ++ rest)%list /\ Glob.glob_match pat rest = true.
Proof.
  induction path as [ | x path IH ]; intros Hm;
    rewrite glob_match_globstar in Hm; apply orb_prop in Hm;
    destruct Hm as [ Hm | Hm ].
  - exists [], []. split; [ reflexivity | exact Hm ].
  - discriminate Hm.
  - exists [], (x :: path). split; [ reflexivity | exact Hm ].
  - destruct (IH Hm) as (parents & rest & -> & Hrest).
    exists (x :: parents), rest. split; [ reflexivity | exact Hrest ].
Qed.

Lemma glob_match_self_inv (segs : list string) :
  forallb Glob.literal_segment segs = true ->
  forall path,
    Glob.glob_match (segs ++ [Glob.globstar]) path = true ->
    exists rest, path = (segs ++ rest)%list.
Proof.
  induction segs as [ | d segs IH ]; intros Hlit path Hm.
  - exists path. reflexivity.
  - cbn [forallb] in Hlit. apply andb_prop in Hlit.
    destruct Hlit as [Hd Hlit].
    destruct (literal_segment_facts d Hd) as [Hstar Htext].
    cbn [app Glob.glob_match] in Hm. rewrite Hstar in Hm.
    destruct path as [ | x path ]; [ discriminate Hm | ].
    apply andb_prop in Hm. destruct Hm as [Hx Hm].
    apply (wild_match_literal d Htext) in Hx. subst x.
    destruct (IH Hlit path Hm) as [rest ->]. exists rest. reflexivity.
Qed.

(** [**], segments, [**] accepts nothing but the paths that go through the
    segments, when the segments are literal. *)
Lemma glob_match_through_inv (segs : list string) (path : string) :
  forallb Glob.literal_segment segs = true ->
  Glob.glob_match (Glob.globstar :: segs ++ [Glob.globstar])
    (Glob.split path) = true ->
  goes_through segs path.
Proof.
  intros Hlit Hm. apply glob_match_skip_inv in Hm.
  destruct Hm as (parents & rest & Hpath & Hm).
  apply (glob_match_self_inv _ Hlit) in Hm. destruct Hm as [rest' ->].
  exists parents, rest'. exact Hpath.
Qed.

Lemma glob_match_file_name_inv (suffix path : string) :
  Glob.literal_text suffix = true ->
  Glob.glob_match [Glob.globstar; String Glob.star suffix]
    (Glob.split path) = true ->
  file_name_ends_with suffix path.
Proof.
  intros Hlit Hm. apply glob_match_skip_inv in Hm.
  destruct Hm as (parents & rest & Hpath & Hm).
  cbn [Glob.glob_match] in Hm.
  destruct (String.eqb_spec (String Glob.star suffix) Glob.globstar)
    as [ Heq | _ ].
  - exfalso. injection Heq as Heq. subst suffix. discriminate Hlit.
  - destruct rest as [ | seg rest ]; [ discriminate Hm | ].
    apply andb_prop in Hm. destruct Hm as [Hseg Hrest].
    destruct rest; [ | discriminate Hrest ].
    destruct (wild_match_suffix_inv suffix Hlit seg Hseg) as [stem ->].
    exists parents, stem. exact Hpath.
Qed.

Lemma goes_through_has_segment (seg path : string) :
  goes_through [seg] path -> has_segment seg path.
Proof.
  intros (parents & rest & Hpath). unfold has_segment.
  rewrite Hpath. apply in_or_app. right. left. reflexivity.
Qed.

(** X1. With the output directory written without [..] and without glob
    characters, the ignore list of [watch] accepts a path exactly when the
    path has a [node_modules], [test] or [tests] segment, or goes through the
    segments of the output directory (empty and [.] segments left out), or
    names a file that ends with [.test.js] or [.test.ts], or begins with a
    dot without being [.]. *)
Theorem ignore_list_is_exact (d p : string) :
  NodePath.plain_dir d = true ->
  isIgnored (ignored d) p = true
  <-> (has_segment "node_modules" p
       \/ goes_through (NodePath.dir_segments d) p
       \/ has_segment "test" p
       \/ has_segment "tests" p
       \/ file_name_ends_with ".test.js" p
       \/ file_name_ends_with ".test.ts" p
       \/ (p <> "." /\ JsString.startsWith p "." = true)).
Proof.
  intros Hplain. split.
  - rewrite isIgnored_cases, (normalizeIgnored_dist d Hplain). intros Hm.
    repeat (apply orb_prop in Hm; destruct Hm as [ Hm | Hm ]).
    + left. apply goes_through_has_segment.
      exact (glob_match_through_inv ["node_modules"] p eq_refl Hm).
    + right. left.
      apply (glob_match_through_inv _ p); [ | exact Hm ].
      apply dir_segments_literal, Hplain.
    + right. right. left. apply goes_through_has_segment.
      exact (glob_match_through_inv ["test"] p eq_refl Hm).
    + right. right. right. left. apply goes_through_has_segment.
      exact (glob_match_through_inv ["tests"] p eq_refl Hm).
    + right. right. right. right. left.
      exact (glob_match_file_name_inv ".test.js" p eq_refl Hm).
    + right. right. right. right. right. left.
      exact (glob_match_file_name_inv ".test.ts" p eq_refl Hm).
    + right. right. right. right. right. right.
      apply andb_prop in Hm. destruct Hm as [Hroot Hdot].
      apply negb_true_iff, String.eqb_neq in Hroot. split; assumption.
    + discriminate Hm.
  - intros H. apply isIgnored_when.
    destruct H as [ H | [ H | H ] ]; [ left; exact H | | right; right; exact H ].
    right. left. split; [ exact Hplain | exact H ].
Qed.

Lemma ignore_list_is_exact_witness :
  NodePath.plain_dir "./dist" = true
  /\ isIgnored (ignored "./dist") "src/latest/contest.js" = false
  /\ ~ has_segment "test" "src/latest/contest.js"
  /\ isIgnored (ignored "./dist") "packages/a/dist/x.js" = true
  /\ goes_through (NodePath.dir_segments "./dist") "packages/a/dist/x.js".
Proof.
  pose proof (ignore_list_is_exact "./dist" "src/latest/contest.js" eq_refl)
    as [_ Hback].
  assert (Hgoes : goes_through (NodePath.dir_segments "./dist")
                    "packages/a/dist/x.js")
    by (exists ["packages"; "a"], ["x.js"]; reflexivity).
  split; [ reflexivity | ].
  split; [ reflexivity | ].
  split.
  - intros Hin.
    assert (Habs : isIgnored (ignored "./dist") "src/latest/contest.js"
                   = true)
      by (apply Hback; right; right; left; exact Hin).
    discriminate Habs.
  - split; [ | exact Hgoes ].
    apply (proj2 (ignore_list_is_exact "./dist" "packages/a/dist/x.js"
                    eq_refl)).
    right. left. exact Hgoes.
Defined.

End IgnoreList.

(** ** Source paths above the working directory *)

Section DotSource.

Local Open Scope string_scope.

Lemma ignored_notification_is_dropped
  (w : World) (s : Session) (n : Notification) (p : string) (h : trace) :
  notification_path n = Some p ->
  isIgnored (s_ignored s) p = true ->
  session_step w s n h = ([], Returned s).
Proof.
  intros Hpath Hign. rewrite session_step_run.
  destruct n; try discriminate Hpath; injection Hpath as ->;
    cbn [chokidar_emit]; rewrite Hign; reflexivity.
Qed.

(** The directory of a source path that begins with [../] begins with
    [../]. *)
Lemma rootDir_of_parent_source (source : string) :
  JsString.startsWith source "../" = true ->
  exists d, rootDir source = "../" ++ d.
Proof.
  unfold JsString.startsWith. intros Hpre.
  apply prefix_cons_inv in Hpre. destruct Hpre as (s1 & -> & Hpre).
  apply prefix_cons_inv in Hpre. destruct Hpre as (s2 & -> & Hpre).
  apply prefix_cons_inv in Hpre. destruct Hpre as (s3 & -> & _).
  destruct (separator_cases (String "." (String "." (String "/" s3))))
    as [ Hno | (dir & file & Heq & Hno) ].
  - exfalso. exact (Hno ".." s3 eq_refl).
  - rewrite Heq, (rootDir_with_separator dir file Hno).
    destruct dir as [ | c1 [ | c2 [ | c3 dir ] ] ]; cbn [append] in Heq;
      try discriminate Heq.
    + exists EmptyString. injection Heq as <- <- _. reflexivity.
    + injection Heq as <- <- <- _. exists (dir ++ "/"). reflexivity.
Qed.

(** X2. When the source path begins with [../], the watched directory
    begins with [../] too, and every path that begins with the watched
    directory is accepted by the function of the ignore list: a notification
    for such a path has no effect at all. *)
Theorem source_above_cwd_is_ignored
  (w : World) (s : Session) (n : Notification) (p : string) (h : trace) :
  s_ignored s = ignored (dist (s_argv s)) ->
  JsString.startsWith (src (s_argv s)) "../" = true ->
  notification_path n = Some p ->
  JsString.startsWith p (rootDir (src (s_argv s))) = true ->
  JsString.startsWith (rootDir (src (s_argv s))) "../" = true
  /\ isIgnored (s_ignored s) p = true
  /\ session_step w s n h = ([], Returned s).
Proof.
  intros Hignored Hsrc Hpath Hunder.
  destruct (rootDir_of_parent_source _ Hsrc) as [d Hroot].
  rewrite Hroot in Hunder |- *. unfold JsString.startsWith in Hunder |- *.
  split; [ apply prefix_app | ].
  apply (prefix_cons_inv "." ("./" ++ d)) in Hunder.
  destruct Hunder as (p' & -> & Hrest).
  assert (Hp' : p' <> EmptyString) by (intros ->; discriminate Hrest).
  assert (Hign : isIgnored (s_ignored s) (String "." p') = true).
  { rewrite Hignored. apply leading_dot_ignored.
    - intros Heq. injection Heq as Heq. contradiction.
    - exact (prefix_app "." p'). }
  split; [ exact Hign | ].
  exact (ignored_notification_is_dropped w s n _ h Hpath Hign).
Qed.

Lemma source_above_cwd_witness :
  s_ignored (active_session outside_argv)
  = ignored (dist (s_argv (active_session outside_argv)))
  /\ JsString.startsWith (src (s_argv (active_session outside_argv))) "../"
     = true
  /\ JsString.startsWith "../snap/helpers.js"
       (rootDir (src (s_argv (active_session outside_argv)))) = true
  /\ session_step all_fine (active_session outside_argv)
       (FileChanged "../snap/helpers.js") []
     = ([], Returned (active_session outside_argv)).
Proof.
  split; [ reflexivity | ].
  split; [ reflexivity | ].
  split; [ reflexivity | ].
  apply (source_above_cwd_is_ignored all_fine
           (active_session outside_argv)
           (FileChanged "../snap/helpers.js") "../snap/helpers.js" []);
    reflexivity.
Defined.

End DotSource.
